(** * Machine deployment orchestration of flyctl (internal/command/deploy/machines.go)

    A shallow embedding of the lease layer ([leasableMachine], [machineSet])
    and of the rollout driver ([machineDeployment]) of
    [src/internal/command/deploy/machines.go].

    Modelling conventions.
    - Go's [time.Time] and [time.Duration] are integers of nanoseconds
      (Unix epoch for instants); [time.Time{}] is year 1.
    - Every [*leasableMachine] lives in a heap ([st_heap]) and is named by its
      index (its pointer identity); a [machineSet] is the list of its members'
      indices.  Dereferencing a nil pointer or indexing an empty slice is a
      Go panic, [Panic] below.
    - The remote control plane (the flaps client), the clock [time.Now] and
      the state of the caller's context are an environment [Env]: an oracle
      indexed by the number of oracle reads done so far, so successive calls
      may answer differently.  Every flaps call is recorded in the trace,
      tagged with the heap index of the [leasableMachine] that issued it.
    - The unbounded [for {}] polling loops run on fuel: [OutOfFuel] stands for
      a loop still polling when the fuel runs out.
    - The helpers of the [api] package that are not part of [src/]
      ([HealthCheckStatus().AllPassing], [GetLatestEventOfTypeAfterType],
      [Request.GetExitCode]) are parameters of the context [Ctx]: every
      statement holds for any implementation of them.
    - Terminal output is omitted, except the warnings and messages printed
      on error paths, which are recorded as [EvWarn] events.
    - The goroutine fan-out of [AcquireLeases] and [ReleaseLeases] runs the
      members one after the other in slice order; each goroutine only touches
      its own member and the results are only joined after all of them ended. *)

From Stdlib Require Import ZArith String Ascii Bool.
From stdpp Require Import base gmap strings list pretty.

Local Open Scope Z_scope.

(** ** Errors *)

(** An error value; [errors.Is] looks through [%w] wrapping. *)
Inductive Err :=
| ECanceled                          (* context.Canceled *)
| EDeadline                          (* context.DeadlineExceeded *)
| EApi (msg : string)                (* any other error of the flaps client *)
| EMsg (msg : string)                (* fmt.Errorf without %w *)
| EWrap (msg : string) (inner : Err) (* fmt.Errorf("...%w", inner) *)
| EReleaseExit (id : string) (code : Z).
  (* fmt.Errorf("error release_command machine %s exited with non-zero status of %d") *)

Fixpoint is_canceled (e : Err) : bool :=
  match e with
  | ECanceled => true
  | EWrap _ i => is_canceled i
  | _ => false
  end.

Fixpoint is_deadline (e : Err) : bool :=
  match e with
  | EDeadline => true
  | EWrap _ i => is_deadline i
  | _ => false
  end.

(** A Go [(value, error)] result. *)
Inductive res (A : Type) :=
| ROk (a : A)
| RErr (e : Err).
Arguments ROk {A} a.
Arguments RErr {A} e.

(** ** The api data model *)

Record MachineCheck := { chk_Type : string; chk_Interval : Z }.
Record MachineService := { svc_Protocol : string; svc_InternalPort : Z }.
Record MachineMetrics := { met_Port : Z; met_Path : string }.
Record MachineGuest := { g_CPUs : Z; g_MemoryMB : Z }.
Record MachineMount := { mnt_Volume : string; mnt_Path : string; mnt_Name : string }.
Record MachineRestart := { rs_Policy : string }.

(** [api.MachineConfig]; [mc_Checks = None] is a nil checks map. *)
Record MachineConfig := {
  mc_Env : gmap string string;
  mc_Init_Cmd : list string;
  mc_Image : string;
  mc_Metadata : gmap string string;
  mc_Mounts : list MachineMount;
  mc_Services : list MachineService;
  mc_Checks : option (gmap string MachineCheck);
  mc_Restart : MachineRestart;
  mc_Guest : option MachineGuest;
  mc_Metrics : option MachineMetrics }.

Record MachineEvent := { ev_Type : string; ev_Timestamp : Z; ev_Request : string }.

Record Machine := {
  m_ID : string;
  m_State : string;
  m_Region : string;
  m_Config : MachineConfig;
  m_Events : list MachineEvent }.

Record LaunchMachineInput := {
  li_ID : string;
  li_AppID : string;
  li_OrgSlug : string;
  li_Config : MachineConfig;
  li_Region : string }.

Record LeaseData := { ld_Nonce : string; ld_ExpiresAt : Z }.
Record MachineLease := {
  lease_Status : string;
  lease_Code : string;
  lease_Message : string;
  lease_Data : option LeaseData }.

(** Field assignments [c.F = v] on a config. *)
Definition set_Env c v := {| mc_Env := v; mc_Init_Cmd := mc_Init_Cmd c; mc_Image := mc_Image c;
  mc_Metadata := mc_Metadata c; mc_Mounts := mc_Mounts c; mc_Services := mc_Services c;
  mc_Checks := mc_Checks c; mc_Restart := mc_Restart c; mc_Guest := mc_Guest c;
  mc_Metrics := mc_Metrics c |}.
Definition set_Init_Cmd c v := {| mc_Env := mc_Env c; mc_Init_Cmd := v; mc_Image := mc_Image c;
  mc_Metadata := mc_Metadata c; mc_Mounts := mc_Mounts c; mc_Services := mc_Services c;
  mc_Checks := mc_Checks c; mc_Restart := mc_Restart c; mc_Guest := mc_Guest c;
  mc_Metrics := mc_Metrics c |}.
Definition set_Image c v := {| mc_Env := mc_Env c; mc_Init_Cmd := mc_Init_Cmd c; mc_Image := v;
  mc_Metadata := mc_Metadata c; mc_Mounts := mc_Mounts c; mc_Services := mc_Services c;
  mc_Checks := mc_Checks c; mc_Restart := mc_Restart c; mc_Guest := mc_Guest c;
  mc_Metrics := mc_Metrics c |}.
Definition set_Metadata c v := {| mc_Env := mc_Env c; mc_Init_Cmd := mc_Init_Cmd c;
  mc_Image := mc_Image c; mc_Metadata := v; mc_Mounts := mc_Mounts c;
  mc_Services := mc_Services c; mc_Checks := mc_Checks c; mc_Restart := mc_Restart c;
  mc_Guest := mc_Guest c; mc_Metrics := mc_Metrics c |}.
Definition set_Mounts c v := {| mc_Env := mc_Env c; mc_Init_Cmd := mc_Init_Cmd c;
  mc_Image := mc_Image c; mc_Metadata := mc_Metadata c; mc_Mounts := v;
  mc_Services := mc_Services c; mc_Checks := mc_Checks c; mc_Restart := mc_Restart c;
  mc_Guest := mc_Guest c; mc_Metrics := mc_Metrics c |}.
Definition set_Services c v := {| mc_Env := mc_Env c; mc_Init_Cmd := mc_Init_Cmd c;
  mc_Image := mc_Image c; mc_Metadata := mc_Metadata c; mc_Mounts := mc_Mounts c;
  mc_Services := v; mc_Checks := mc_Checks c; mc_Restart := mc_Restart c;
  mc_Guest := mc_Guest c; mc_Metrics := mc_Metrics c |}.
Definition set_Checks c v := {| mc_Env := mc_Env c; mc_Init_Cmd := mc_Init_Cmd c;
  mc_Image := mc_Image c; mc_Metadata := mc_Metadata c; mc_Mounts := mc_Mounts c;
  mc_Services := mc_Services c; mc_Checks := v; mc_Restart := mc_Restart c;
  mc_Guest := mc_Guest c; mc_Metrics := mc_Metrics c |}.
Definition set_Restart c v := {| mc_Env := mc_Env c; mc_Init_Cmd := mc_Init_Cmd c;
  mc_Image := mc_Image c; mc_Metadata := mc_Metadata c; mc_Mounts := mc_Mounts c;
  mc_Services := mc_Services c; mc_Checks := mc_Checks c; mc_Restart := v;
  mc_Guest := mc_Guest c; mc_Metrics := mc_Metrics c |}.
Definition set_Guest c v := {| mc_Env := mc_Env c; mc_Init_Cmd := mc_Init_Cmd c;
  mc_Image := mc_Image c; mc_Metadata := mc_Metadata c; mc_Mounts := mc_Mounts c;
  mc_Services := mc_Services c; mc_Checks := mc_Checks c; mc_Restart := mc_Restart c;
  mc_Guest := v; mc_Metrics := mc_Metrics c |}.
Definition set_Metrics c v := {| mc_Env := mc_Env c; mc_Init_Cmd := mc_Init_Cmd c;
  mc_Image := mc_Image c; mc_Metadata := mc_Metadata c; mc_Mounts := mc_Mounts c;
  mc_Services := mc_Services c; mc_Checks := mc_Checks c; mc_Restart := mc_Restart c;
  mc_Guest := mc_Guest c; mc_Metrics := v |}.

Definition set_li_Config li c := {| li_ID := li_ID li; li_AppID := li_AppID li;
  li_OrgSlug := li_OrgSlug li; li_Config := c; li_Region := li_Region li |}.
Definition set_li_Region li r := {| li_ID := li_ID li; li_AppID := li_AppID li;
  li_OrgSlug := li_OrgSlug li; li_Config := li_Config li; li_Region := r |}.

(** Values of the [api] package constants used by the deployment. *)
Definition MachineProcessGroupApp : string := "app".
Definition MachineProcessGroupReleaseCommand : string := "release_command".
Definition MachineStateStarted : string := "started".
Definition MachineStateStopped : string := "stopped".
Definition MachineRestartPolicyNo : string := "no".
Definition MachineConfigMetadataKeyFlyPlatformVersion : string := "fly_platform_version".
Definition MachineConfigMetadataKeyFlyReleaseId : string := "fly_release_id".
Definition MachineConfigMetadataKeyFlyReleaseVersion : string := "fly_release_version".
Definition MachineConfigMetadataKeyProcessGroup : string := "fly_process_group".
Definition MachineConfigMetadataKeyFlyManagedPostgres : string := "fly-managed-postgres".
Definition MachineFlyPlatformVersion2 : string := "v2".

(** ** Time *)

Definition Millisecond : Z := 1000000.
Definition Second : Z := 1000 * Millisecond.
(** [time.Time{}]: January 1, year 1, in nanoseconds from the Unix epoch. *)
Definition zero_time : Z := -62135596800 * Second.
(** [time.Unix(sec, 0)] *)
Definition time_Unix (sec : Z) : Z := sec * Second.

(** ** Objects, environment and the monad *)

Record leasableMachine := {
  lm_machine : Machine;
  lm_leaseNonce : string;
  lm_leaseExpiration : Z }.

Definition set_machine (lm : leasableMachine) (m : Machine) : leasableMachine :=
  {| lm_machine := m; lm_leaseNonce := lm_leaseNonce lm;
     lm_leaseExpiration := lm_leaseExpiration lm |}.
Definition set_lease (lm : leasableMachine) (nonce : string) (exp : Z) : leasableMachine :=
  {| lm_machine := lm_machine lm; lm_leaseNonce := nonce; lm_leaseExpiration := exp |}.

(** [NewLeasableMachine]: no lease yet. *)
Definition NewLeasableMachine (m : Machine) : leasableMachine :=
  {| lm_machine := m; lm_leaseNonce := ""; lm_leaseExpiration := zero_time |}.

(** The fields of [machineDeployment] that stay fixed once
    [NewMachineDeployment] returned; [machineSet] and
    [releaseCommandMachine] are mutable and live in the state [St]. *)
Record machineDeployment := {
  md_appName : string;
  md_appOrgID : string;                 (* md.app.Organization.ID *)
  md_isPostgresApp : bool;              (* md.app.IsPostgresApp() *)
  md_primaryRegion : string;            (* md.appConfig.PrimaryRegion *)
  md_appEnv : gmap string string;       (* md.appConfig.Env *)
  md_appMetrics : option MachineMetrics; (* md.appConfig.Metrics *)
  md_imgTag : string;                   (* md.img.Tag *)
  md_releaseCommand : string;
  md_volumeDestination : string;
  md_appChecksForMachines : gmap string MachineCheck;
  md_appServicesForMachines : list MachineService;
  md_strategy : string;
  md_releaseId : string;
  md_releaseVersion : Z;
  md_skipHealthChecks : bool;
  md_restartOnly : bool;
  md_waitTimeout : Z;
  md_leaseTimeout : Z }.

(** A flaps call or a warning, as issued; [h] is the heap index of the
    [leasableMachine] whose method made the call. *)
Inductive Event :=
| EvAcquireLease (h : nat) (id : string) (seconds : Z)
| EvReleaseLease (h : nat) (id nonce : string)
| EvUpdate (h : nat) (input : LaunchMachineInput) (nonce : string)
| EvLaunch (input : LaunchMachineInput)
| EvWait (h : nat) (id desiredState : string)
| EvGet (h : nat) (id : string)
| EvSleep (bmin bmax : Z)   (* time.Sleep(b.Duration()), backoff between bmin and bmax *)
| EvWarn (msg : string).

Definition ev_handle (ev : Event) : option nat :=
  match ev with
  | EvAcquireLease h _ _ | EvReleaseLease h _ _ | EvUpdate h _ _
  | EvWait h _ _ | EvGet h _ => Some h
  | _ => None
  end.

(** The answers of the outside world, indexed by the number of reads so far. *)
Record Env := {
  e_now : nat -> Z;                                   (* time.Now() *)
  e_ctxCanceled : nat -> bool;                        (* errors.Is(ctx.Err(), context.Canceled) *)
  e_acquireLease : nat -> string -> Z -> res MachineLease;
  e_releaseLease : nat -> string -> string -> option Err;
  e_update : nat -> LaunchMachineInput -> string -> res Machine;
  e_launch : nat -> LaunchMachineInput -> res Machine;
  e_wait : nat -> Machine -> string -> option Err;
  e_get : nat -> string -> res Machine;
  e_fuel : nat }.

(** Helpers of the [api] package, left abstract. *)
Record Api := {
  AllPassing : Machine -> bool;   (* m.HealthCheckStatus().AllPassing() *)
  GetLatestEventOfTypeAfterType : Machine -> string -> string -> option MachineEvent;
  GetExitCode : MachineEvent -> res Z }.  (* ev.Request.GetExitCode() *)

Record Ctx := { c_md : machineDeployment; c_env : Env; c_api : Api }.

Record St := {
  st_heap : list leasableMachine;
  st_machineSet : list nat;            (* md.machineSet *)
  st_releaseCommandMachine : list nat; (* md.releaseCommandMachine *)
  st_step : nat;
  st_trace : list Event }.

Definition set_heap (s : St) (hp : list leasableMachine) : St :=
  {| st_heap := hp; st_machineSet := st_machineSet s;
     st_releaseCommandMachine := st_releaseCommandMachine s;
     st_step := st_step s; st_trace := st_trace s |}.
Definition set_rel (s : St) (ms : list nat) : St :=
  {| st_heap := st_heap s; st_machineSet := st_machineSet s;
     st_releaseCommandMachine := ms; st_step := st_step s; st_trace := st_trace s |}.
Definition incr_step (s : St) : St :=
  {| st_heap := st_heap s; st_machineSet := st_machineSet s;
     st_releaseCommandMachine := st_releaseCommandMachine s;
     st_step := S (st_step s); st_trace := st_trace s |}.
Definition add_event (s : St) (ev : Event) : St :=
  {| st_heap := st_heap s; st_machineSet := st_machineSet s;
     st_releaseCommandMachine := st_releaseCommandMachine s;
     st_step := st_step s; st_trace := st_trace s ++ [ev] |}.

Inductive exec (A : Type) :=
| Done (a : A)
| Panic
| OutOfFuel.
Arguments Done {A} a.
Arguments Panic {A}.
Arguments OutOfFuel {A}.

Definition M (A : Type) : Type := Ctx -> St -> exec A * St.

Definition retM {A} (a : A) : M A := fun _ s => (Done a, s).
Definition bindM {A B} (m : M A) (k : A -> M B) : M B := fun c s =>
  match m c s with
  | (Done a, s1) => k a c s1
  | (Panic, s1) => (Panic, s1)
  | (OutOfFuel, s1) => (OutOfFuel, s1)
  end.

Notation "x <- m ;; k" := (bindM m (fun x => k))
  (at level 100, m at next level, right associativity).

Definition panic {A} : M A := fun _ s => (Panic, s).
Definition outOfFuel {A} : M A := fun _ s => (OutOfFuel, s).
Definition askMd : M machineDeployment := fun c s => (Done (c_md c), s).
Definition askEnv : M Env := fun c s => (Done (c_env c), s).
Definition askApi : M Api := fun c s => (Done (c_api c), s).
Definition tick : M nat := fun _ s => (Done (st_step s), incr_step s).
Definition emit (ev : Event) : M unit := fun _ s => (Done tt, add_event s ev).
Definition warn (msg : string) : M unit := emit (EvWarn msg).

(** Dereference of a [*leasableMachine]. *)
Definition load (h : nat) : M leasableMachine := fun _ s =>
  match st_heap s !! h with
  | Some lm => (Done lm, s)
  | None => (Panic, s)
  end.
Definition store (h : nat) (lm : leasableMachine) : M unit := fun _ s =>
  if decide (h < length (st_heap s))%nat
  then (Done tt, set_heap s (<[h := lm]> (st_heap s)))
  else (Panic, s).
(** [NewLeasableMachine] on the heap. *)
Definition alloc (m : Machine) : M nat := fun _ s =>
  (Done (length (st_heap s)), set_heap s (st_heap s ++ [NewLeasableMachine m])).
Definition getMachineSet : M (list nat) := fun _ s => (Done (st_machineSet s), s).
Definition getReleaseCommandMachine : M (list nat) :=
  fun _ s => (Done (st_releaseCommandMachine s), s).
(** [md.releaseCommandMachine = NewMachineSet(md.flapsClient, md.io, []*api.Machine{m})] *)
Definition newReleaseCommandMachineSet (m : Machine) : M unit := fun _ s =>
  (Done tt, set_rel (set_heap s (st_heap s ++ [NewLeasableMachine m])) [length (st_heap s)]).

(** ** The outside world *)

Definition now : M Z := e <- askEnv ;; n <- tick ;; retM (e_now e n).
Definition ctxCanceled : M bool := e <- askEnv ;; n <- tick ;; retM (e_ctxCanceled e n).
Definition flaps_AcquireLease (h : nat) (id : string) (seconds : Z) : M (res MachineLease) :=
  e <- askEnv ;; n <- tick ;; _ <- emit (EvAcquireLease h id seconds) ;;
  retM (e_acquireLease e n id seconds).
Definition flaps_ReleaseLease (h : nat) (id nonce : string) : M (option Err) :=
  e <- askEnv ;; n <- tick ;; _ <- emit (EvReleaseLease h id nonce) ;;
  retM (e_releaseLease e n id nonce).
Definition flaps_Update (h : nat) (input : LaunchMachineInput) (nonce : string) : M (res Machine) :=
  e <- askEnv ;; n <- tick ;; _ <- emit (EvUpdate h input nonce) ;;
  retM (e_update e n input nonce).
Definition flaps_Launch (input : LaunchMachineInput) : M (res Machine) :=
  e <- askEnv ;; n <- tick ;; _ <- emit (EvLaunch input) ;; retM (e_launch e n input).
Definition flaps_Wait (h : nat) (m : Machine) (desiredState : string) : M (option Err) :=
  e <- askEnv ;; n <- tick ;; _ <- emit (EvWait h (m_ID m) desiredState) ;;
  retM (e_wait e n m desiredState).
Definition flaps_Get (h : nat) (id : string) : M (res Machine) :=
  e <- askEnv ;; n <- tick ;; _ <- emit (EvGet h id) ;; retM (e_get e n id).
Definition sleep_backoff (bmin bmax : Z) : M unit := emit (EvSleep bmin bmax).

(** ** [leasableMachine] *)

(** [lm.leaseNonce != "" && lm.leaseExpiration.After(t)] *)
Definition leaseHeld (lm : leasableMachine) (t : Z) : bool :=
  negb (String.eqb (lm_leaseNonce lm) "") && Z.ltb t (lm_leaseExpiration lm).

Definition lm_HasLease (h : nat) : M bool :=
  lm <- load h ;;
  t <- now ;;
  retM (leaseHeld lm t).

Definition lm_resetLease (h : nat) : M unit :=
  lm <- load h ;;
  store h (set_lease lm "" zero_time).

Definition lm_Update (h : nat) (input : LaunchMachineInput) : M (option Err) :=
  hasLease <- lm_HasLease h ;;
  lm <- load h ;;
  if negb hasLease
  then retM (Some (EMsg ("no current lease for machine " +:+ m_ID (lm_machine lm))))
  else
    r <- flaps_Update h input (lm_leaseNonce lm) ;;
    match r with
    | RErr err => retM (Some err)
    | ROk updateMachine => _ <- store h (set_machine lm updateMachine) ;; retM None
    end.

Definition lm_AcquireLease (h : nat) (duration : Z) : M (option Err) :=
  hasLease <- lm_HasLease h ;;
  if hasLease then retM None else
  lm <- load h ;;
  let seconds := Z.quot duration Second in
  r <- flaps_AcquireLease h (m_ID (lm_machine lm)) seconds ;;
  match r with
  | RErr err => retM (Some err)
  | ROk lease =>
      if negb (String.eqb (lease_Status lease) "success")
      then retM (Some (EMsg ("did not acquire lease for machine " +:+ m_ID (lm_machine lm))))
      else match lease_Data lease with
           | None =>
               retM (Some (EMsg ("missing data from lease response for machine "
                                 +:+ m_ID (lm_machine lm))))
           | Some d =>
               _ <- store h (set_lease lm (ld_Nonce d) (time_Unix (ld_ExpiresAt d))) ;;
               retM None
           end
  end.

Definition lm_ReleaseLease (h : nat) : M (option Err) :=
  hasLease <- lm_HasLease h ;;
  if negb hasLease then _ <- lm_resetLease h ;; retM None else
  lm <- load h ;;
  (* time.Since(lm.leaseExpiration) > 5*time.Second *)
  t <- now ;;
  if Z.ltb (5 * Second) (t - lm_leaseExpiration lm) then _ <- lm_resetLease h ;; retM None else
  r <- flaps_ReleaseLease h (m_ID (lm_machine lm)) (lm_leaseNonce lm) ;;
  match r with
  | Some err =>
      _ <- warn ("failed to release lease for machine " +:+ m_ID (lm_machine lm)) ;;
      _ <- lm_resetLease h ;;
      retM (Some err)
  | None => _ <- lm_resetLease h ;; retM None
  end.

(** The [for {}] loop of [WaitForState]. *)
Fixpoint waitForState_loop (fuel : nat) (h : nat) (desiredState : string) : M (option Err) :=
  match fuel with
  | O => outOfFuel
  | S fuel' =>
      lm <- load h ;;
      err <- flaps_Wait h (lm_machine lm) desiredState ;;
      match err with
      | Some err =>
          if is_canceled err then retM (Some err)
          else if is_deadline err
          then retM (Some (EWrap ("timeout reached waiting for machine to " +:+ desiredState) err))
          else _ <- sleep_backoff (500 * Millisecond) (2 * Second) ;;
               waitForState_loop fuel' h desiredState
      | None => retM None
      end
  end.

Definition lm_WaitForState (h : nat) (desiredState : string) (timeout : Z) : M (option Err) :=
  e <- askEnv ;;
  waitForState_loop (e_fuel e) h desiredState.

(** [shortestInterval] of [WaitForHealthchecksToPass]. *)
Definition shortestInterval (checks : gmap string MachineCheck) : Z :=
  map_fold (fun _ c acc => if Z.ltb (chk_Interval c) acc then chk_Interval c else acc)
    (120 * Second) checks.

(** The [for {}] loop of [WaitForHealthchecksToPass], with the backoff bounds. *)
Fixpoint healthchecks_loop (fuel : nat) (h : nat) (bmin bmax : Z) : M (option Err) :=
  match fuel with
  | O => outOfFuel
  | S fuel' =>
      lm <- load h ;;
      let id := m_ID (lm_machine lm) in
      r <- flaps_Get h id ;;
      api <- askApi ;;
      match r with
      | RErr err =>
          if is_canceled err then retM (Some err)
          else if is_deadline err
          then retM (Some (EWrap ("timeout reached waiting for healthchecks to pass for machine "
                                  +:+ id) err))
          else retM (Some (EWrap ("error getting machine " +:+ id +:+ " from api") err))
      | ROk updateMachine =>
          if negb (AllPassing api updateMachine)
          then _ <- sleep_backoff bmin bmax ;; healthchecks_loop fuel' h bmin bmax
          else retM None
      end
  end.

Definition lm_WaitForHealthchecksToPass (h : nat) (timeout : Z) : M (option Err) :=
  lm <- load h ;;
  match mc_Checks (m_Config (lm_machine lm)) with
  | None => retM None
  | Some checks =>
      let si := shortestInterval checks in
      e <- askEnv ;;
      healthchecks_loop (e_fuel e) h (Z.quot si 2) (2 * si)
  end.

(** The [for {}] loop of [WaitForEventTypeAfterType]. *)
Fixpoint eventAfter_loop (fuel : nat) (h : nat) (eventType1 eventType2 : string)
  : M (res MachineEvent) :=
  match fuel with
  | O => outOfFuel
  | S fuel' =>
      lm <- load h ;;
      let id := m_ID (lm_machine lm) in
      r <- flaps_Get h id ;;
      api <- askApi ;;
      match r with
      | RErr err =>
          if is_canceled err then retM (RErr err)
          else if is_deadline err
          then retM (RErr (EWrap ("timeout reached waiting for healthchecks to pass for machine "
                                  +:+ id) err))
          else retM (RErr (EWrap ("error getting machine " +:+ id +:+ " from api") err))
      | ROk updateMachine =>
          match GetLatestEventOfTypeAfterType api updateMachine eventType1 eventType2 with
          | Some exitEvent => retM (ROk exitEvent)
          | None => _ <- sleep_backoff (500 * Millisecond) (2 * Second) ;;
                    eventAfter_loop fuel' h eventType1 eventType2
          end
      end
  end.

Definition lm_WaitForEventTypeAfterType (h : nat) (eventType1 eventType2 : string) (timeout : Z)
  : M (res MachineEvent) :=
  e <- askEnv ;;
  eventAfter_loop (e_fuel e) h eventType1 eventType2.

(** ** [machineSet] *)

Fixpoint mapM {A B} (f : A -> M B) (l : list A) : M (list B) :=
  match l with
  | [] => retM []
  | x :: l' => y <- f x ;; ys <- mapM f l' ;; retM (y :: ys)
  end.

(** The collecting [for err := range results] loop: warns on each error
    selected by [keep] and tells whether there was one. *)
Fixpoint collectErrors (keep : Err -> bool) (msg : string) (results : list (option Err))
  (hadError : bool) : M bool :=
  match results with
  | [] => retM hadError
  | Some err :: rest =>
      if keep err then _ <- warn msg ;; collectErrors keep msg rest true
      else collectErrors keep msg rest hadError
  | None :: rest => collectErrors keep msg rest hadError
  end.

Definition ms_ReleaseLeases (ms : list nat) : M (option Err) :=
  contextWasAlreadyCanceled <- ctxCanceled ;;
  results <- mapM lm_ReleaseLease ms ;;
  hadError <- collectErrors
    (fun err => negb contextWasAlreadyCanceled || negb (is_deadline err || is_canceled err))
    "failed to release lease" results false ;;
  if hadError then retM (Some (EMsg "error releasing leases on machines")) else retM None.

Definition ms_AcquireLeases (ms : list nat) (duration : Z) : M (option Err) :=
  results <- mapM (fun h => lm_AcquireLease h duration) ms ;;
  hadError <- collectErrors (fun _ => true) "failed to acquire lease" results false ;;
  if hadError then
    err <- ms_ReleaseLeases ms ;;
    _ <- (match err with Some _ => warn "error releasing machine leases" | None => retM tt end) ;;
    retM (Some (EMsg "error acquiring leases on all machines"))
  else retM None.

(** ** Machine configuration *)

(** [strings.Split(s, sep)] for a one-character separator. *)
Fixpoint strings_Split (s : string) (sep : ascii) : list string :=
  match s with
  | EmptyString => [""]
  | String c rest =>
      let parts := strings_Split rest sep in
      if Ascii.eqb c sep then "" :: parts
      else match parts with
           | p :: ps => String c p :: ps
           | [] => [String c ""]
           end
  end.

(** A Go map read [m[k]]: the zero value when absent. *)
Definition map_get (m : gmap string string) (k : string) : string :=
  default "" (m !! k).

Definition defaultMachineMetadata (md : machineDeployment) (processGroup : string)
  : gmap string string :=
  let res : gmap string string :=
    <[MachineConfigMetadataKeyFlyPlatformVersion := MachineFlyPlatformVersion2]>
    (<[MachineConfigMetadataKeyFlyReleaseId := md_releaseId md]>
    (<[MachineConfigMetadataKeyFlyReleaseVersion := pretty (md_releaseVersion md)]>
    (<[MachineConfigMetadataKeyProcessGroup := processGroup]> ∅))) in
  if md_isPostgresApp md then <[MachineConfigMetadataKeyFlyManagedPostgres := "true"]> res
  else res.

Definition isFlyAppsPlatformMetadata (key : string) : bool :=
  String.eqb key MachineConfigMetadataKeyFlyPlatformVersion ||
  String.eqb key MachineConfigMetadataKeyFlyReleaseId ||
  String.eqb key MachineConfigMetadataKeyFlyReleaseVersion ||
  String.eqb key MachineConfigMetadataKeyProcessGroup ||
  String.eqb key MachineConfigMetadataKeyFlyManagedPostgres.

(** [for k, v := range src { if !isFlyAppsPlatformMetadata(k) { dst[k] = v } }] *)
Definition copyUserMetadata (src dst : gmap string string) : gmap string string :=
  map_fold (fun k v acc => if isFlyAppsPlatformMetadata k then acc else <[k := v]> acc) dst src.

(** [&api.MachineConfig{}] *)
Definition emptyMachineConfig : MachineConfig :=
  {| mc_Env := ∅; mc_Init_Cmd := []; mc_Image := ""; mc_Metadata := ∅; mc_Mounts := [];
     mc_Services := []; mc_Checks := None; mc_Restart := {| rs_Policy := "" |};
     mc_Guest := None; mc_Metrics := None |}.

Definition set_first_mount_path (mounts : list MachineMount) (path : string) : list MachineMount :=
  match mounts with
  | mt :: rest => {| mnt_Volume := mnt_Volume mt; mnt_Path := path; mnt_Name := mnt_Name mt |} :: rest
  | [] => []
  end.

(** [resolveUpdatedMachineConfig]; [None] for the argument is a nil
    [*api.Machine], and [None] for the result is the panic of dereferencing
    it ([origMachineRaw.Config] or [origMachineRaw.ID]).  In restart-only mode
    [launchInput.Config] and [origMachineRaw.Config] are the same object, so
    the metadata loop ranges over the metadata map that was just assigned.
    The writes this function makes through other shared pointers
    ([md.appConfig.Env], the original mounts slice) and its mount-path warning
    are not modelled. *)
Definition resolveUpdatedMachineConfig (md : machineDeployment) (processGroup : string)
  (origMachineRaw : option Machine) : option LaunchMachineInput :=
  match origMachineRaw with
  | None => None
  | Some orig =>
      let machineConf := if md_restartOnly md then m_Config orig else emptyMachineConfig in
      let conf1 := set_Metadata machineConf (defaultMachineMetadata md processGroup) in
      let origConfig := if md_restartOnly md then conf1 else m_Config orig in
      let conf2 := set_Metadata conf1 (copyUserMetadata (mc_Metadata origConfig) (mc_Metadata conf1)) in
      let launchInput :=
        {| li_ID := m_ID orig; li_AppID := md_appName md; li_OrgSlug := md_appOrgID md;
           li_Config := conf2; li_Region := m_Region orig |} in
      if md_restartOnly md then Some launchInput else
      let c := conf2 in
      let c := set_Image c (md_imgTag md) in
      let c := set_Init_Cmd c [] in
      let c := set_Checks c (Some (md_appChecksForMachines md)) in
      let c := set_Services c (md_appServicesForMachines md) in
      let c := set_Metrics c (md_appMetrics md) in
      let env := md_appEnv md in
      let origEnv := mc_Env (m_Config orig) in
      let env := if String.eqb (map_get env "PRIMARY_REGION") ""
                      && negb (String.eqb (map_get origEnv "PRIMARY_REGION") "")
                 then <["PRIMARY_REGION" := map_get origEnv "PRIMARY_REGION"]> env else env in
      let c := set_Env c env in
      let c := match mc_Mounts (m_Config orig) with
               | [] => c
               | mounts => set_Mounts c mounts
               end in
      let c := match mc_Mounts c with
               | [mt] => if String.eqb (mnt_Path mt) (md_volumeDestination md) then c
                         else set_Mounts c (set_first_mount_path (mc_Mounts c) (md_volumeDestination md))
               | _ => c
               end in
      let c := match mc_Guest (m_Config orig) with
               | Some g => set_Guest c (Some g)
               | None => c
               end in
      Some (set_li_Config launchInput c)
  end.

Definition configureLaunchInputForReleaseCommand (md : machineDeployment)
  (launchInput : LaunchMachineInput) : LaunchMachineInput :=
  let c := li_Config launchInput in
  let c := set_Init_Cmd c (strings_Split (md_releaseCommand md) " ") in
  let c := set_Services c [] in
  let c := set_Checks c None in
  let c := set_Restart c {| rs_Policy := MachineRestartPolicyNo |} in
  let li := set_li_Config launchInput c in
  let li := if negb (String.eqb (md_primaryRegion md) "")
            then set_li_Region li (md_primaryRegion md) else li in
  let c := li_Config li in
  match mc_Env c !! "RELEASE_COMMAND" with
  | Some _ => li
  | None => set_li_Config li (set_Env c (<["RELEASE_COMMAND" := "1"]> (mc_Env c)))
  end.

(** ** [machineDeployment] *)

Definition isEmpty (ms : list nat) : bool :=
  match ms with [] => true | _ => false end.

(** A [defer]red call: it runs when the body returns or panics. *)
Definition withDefer {A} (body : M A) (cleanup : M unit) : M A := fun c s =>
  match body c s with
  | (Done a, s1) =>
      match cleanup c s1 with
      | (Done _, s2) => (Done a, s2)
      | (Panic, s2) => (Panic, s2)
      | (OutOfFuel, s2) => (OutOfFuel, s2)
      end
  | (Panic, s1) =>
      match cleanup c s1 with
      | (OutOfFuel, s2) => (OutOfFuel, s2)
      | (_, s2) => (Panic, s2)
      end
  | (OutOfFuel, s1) => (OutOfFuel, s1)
  end.

(** [lm.Machine().ID] *)
Definition machineID (h : nat) : M string := lm <- load h ;; retM (m_ID (lm_machine lm)).

Definition createReleaseCommandMachine : M (option Err) :=
  md <- askMd ;;
  rel <- getReleaseCommandMachine ;;
  if String.eqb (md_releaseCommand md) "" || negb (isEmpty rel) then retM None else
  match resolveUpdatedMachineConfig md MachineProcessGroupReleaseCommand None with
  | None => panic
  | Some launchInput =>
      let launchInput := configureLaunchInputForReleaseCommand md launchInput in
      r <- flaps_Launch launchInput ;;
      match r with
      | RErr err => retM (Some (EWrap "error creating a release_command machine" err))
      | ROk releaseCmdMachine => _ <- newReleaseCommandMachineSet releaseCmdMachine ;; retM None
      end
  end.

Definition updateReleaseCommandMachine : M (option Err) :=
  md <- askMd ;;
  if String.eqb (md_releaseCommand md) "" then retM None else
  rel <- getReleaseCommandMachine ;;
  match rel with
  | [] => retM (Some (EMsg "expected release_command machine to exist already, but it does not :-("))
  | h :: _ =>
      err <- lm_WaitForState h MachineStateStopped (md_waitTimeout md) ;;
      match err with
      | Some err => retM (Some err)
      | None =>
          lm <- load h ;;
          match resolveUpdatedMachineConfig md MachineProcessGroupReleaseCommand
                  (Some (lm_machine lm)) with
          | None => panic
          | Some updatedConfig =>
              let updatedConfig := configureLaunchInputForReleaseCommand md updatedConfig in
              rel <- getReleaseCommandMachine ;;
              err <- ms_AcquireLeases rel (md_leaseTimeout md) ;;
              withDefer
                (match err with
                 | Some err => retM (Some err)
                 | None =>
                     err <- lm_Update h updatedConfig ;;
                     match err with
                     | Some err => retM (Some (EWrap "error updating release_command machine" err))
                     | None => retM None
                     end
                 end)
                (rel <- getReleaseCommandMachine ;; _ <- ms_ReleaseLeases rel ;; retM tt)
          end
      end
  end.

Definition createOrUpdateReleaseCmdMachine : M (option Err) :=
  rel <- getReleaseCommandMachine ;;
  if isEmpty rel then createReleaseCommandMachine else updateReleaseCommandMachine.

Definition runReleaseCommand : M (option Err) :=
  md <- askMd ;;
  rel <- getReleaseCommandMachine ;;
  if String.eqb (md_releaseCommand md) "" || isEmpty rel || md_restartOnly md then retM None else
  err <- createOrUpdateReleaseCmdMachine ;;
  match err with
  | Some err => retM (Some (EWrap "error running release_command machine" err))
  | None =>
  rel <- getReleaseCommandMachine ;;
  match rel with
  | [] => panic
  | releaseCmdMachine :: _ =>
  err <- lm_WaitForState releaseCmdMachine MachineStateStarted (md_waitTimeout md) ;;
  match err with
  | Some err =>
      id <- machineID releaseCmdMachine ;;
      retM (Some (EWrap ("error waiting for release_command machine " +:+ id +:+ " to start") err))
  | None =>
  err <- lm_WaitForState releaseCmdMachine MachineStateStopped (md_waitTimeout md) ;;
  match err with
  | Some err =>
      id <- machineID releaseCmdMachine ;;
      retM (Some (EWrap ("error waiting for release_command machine " +:+ id
                         +:+ " to finish running") err))
  | None =>
  r <- lm_WaitForEventTypeAfterType releaseCmdMachine "exit" "start" (md_waitTimeout md) ;;
  match r with
  | RErr err =>
      id <- machineID releaseCmdMachine ;;
      retM (Some (EWrap ("error finding the release_command machine " +:+ id +:+ " exit event") err))
  | ROk lastExitEvent =>
  api <- askApi ;;
  match GetExitCode api lastExitEvent with
  | RErr err =>
      id <- machineID releaseCmdMachine ;;
      retM (Some (EWrap ("error get release_command machine " +:+ id +:+ " exit code") err))
  | ROk exitCode =>
      if negb (Z.eqb exitCode 0) then
        id <- machineID releaseCmdMachine ;;
        _ <- warn ("Error release_command failed running on machine " +:+ id) ;;
        retM (Some (EReleaseExit id exitCode))
      else retM None
  end end end end end end.

(** [createOneMachine]; the leasable machine built before the error check is
    dropped on the error path. *)
Definition createOneMachine : M (option Err) :=
  md <- askMd ;;
  match resolveUpdatedMachineConfig md MachineProcessGroupReleaseCommand None with
  | None => panic
  | Some launchInput =>
      r <- flaps_Launch launchInput ;;
      match r with
      | RErr err => retM (Some (EWrap "error creating a new machine machine" err))
      | ROk newMachineRaw =>
          newMachine <- alloc newMachineRaw ;;
          let immediate := String.eqb (md_strategy md) "immediate" in
          err <- (if negb immediate
                  then lm_WaitForState newMachine MachineStateStarted (md_waitTimeout md)
                  else retM None) ;;
          match err with
          | Some err => retM (Some err)
          | None =>
              if negb immediate && negb (md_skipHealthChecks md)
              then lm_WaitForHealthchecksToPass newMachine (md_waitTimeout md)
              else retM None
          end
      end
  end.

(** The steps of one iteration of the update loop that follow [m.Update]. *)
Definition afterUpdate (md : machineDeployment) (h : nat) (k : M (option Err)) : M (option Err) :=
  let immediate := String.eqb (md_strategy md) "immediate" in
  err <- (if negb immediate then lm_WaitForState h MachineStateStarted (md_waitTimeout md)
          else retM None) ;;
  match err with
  | Some err => retM (Some err)
  | None =>
      err <- (if negb immediate && negb (md_skipHealthChecks md)
              then lm_WaitForHealthchecksToPass h (md_waitTimeout md) else retM None) ;;
      match err with
      | Some err => retM (Some err)
      | None => k
      end
  end.

(** [for _, m := range md.machineSet.GetMachines() { ... }] *)
Fixpoint updateLoop (machines : list nat) : M (option Err) :=
  match machines with
  | [] => retM None
  | m :: rest =>
      md <- askMd ;;
      lm <- load m ;;
      match resolveUpdatedMachineConfig md MachineProcessGroupApp (Some (lm_machine lm)) with
      | None => panic
      | Some launchInput =>
          err <- lm_Update m launchInput ;;
          match err with
          | Some err =>
              if negb (String.eqb (md_strategy md) "immediate") then retM (Some err)
              else _ <- warn "Continuing after error" ;; afterUpdate md m (updateLoop rest)
          | None => afterUpdate md m (updateLoop rest)
          end
      end
  end.

Definition DeployMachinesApp : M (option Err) :=
  err <- runReleaseCommand ;;
  match err with
  | Some err => retM (Some (EWrap "release command failed - aborting deployment." err))
  | None =>
      ms <- getMachineSet ;;
      if isEmpty ms then createOneMachine else
      md <- askMd ;;
      err <- ms_AcquireLeases ms (md_leaseTimeout md) ;;
      withDefer
        (match err with
         | Some err => retM (Some err)
         | None => updateLoop ms
         end)
        (ms <- getMachineSet ;;
         err <- ms_ReleaseLeases ms ;;
         match err with
         | Some _ => warn "error releasing leases on machines"
         | None => retM tt
         end)
  end.


(** ** Building the deployment: the steps of [NewMachineDeployment] *)

(** The body of the loop of [validateVolumeConfig], for one machine. *)
Definition validateMachineMounts (volumeName : string) (m : Machine) : option Err :=
  let mid := m_ID m in
  let mountsConfig := mc_Mounts (m_Config m) in
  if Nat.ltb 1 (length mountsConfig) then
    Some (EMsg ("error machine " +:+ mid +:+ " has " +:+ pretty (length mountsConfig)
                +:+ " mounts and expected 1"))
  else if String.eqb volumeName "" then
    match mountsConfig with
    | [] => None
    | _ => Some (EMsg ("error machine " +:+ mid
                       +:+ " has a volume mounted and app config does not specify a volume; remove the volume from the machine or add a [mounts] configuration to fly.toml"))
    end
  else
    match mountsConfig with
    | [] => Some (EMsg ("error machine " +:+ mid
                        +:+ " does not have a volume configured and fly.toml expects one with name "
                        +:+ volumeName
                        +:+ "; remove the [mounts] configuration in fly.toml or use the machines API to add a volume to this machine"))
    | mt :: _ =>
        let mVolName := mnt_Name mt in
        if negb (String.eqb volumeName mVolName)
        then Some (EMsg ("error machine " +:+ mid +:+ " has volume with name " +:+ mVolName
                         +:+ " and fly.toml has [mounts] source set to " +:+ volumeName
                         +:+ "; update the source to " +:+ mVolName
                         +:+ " or use the machines API to attach a volume with name " +:+ volumeName
                         +:+ " to this machine"))
        else None
    end.

(** [for _, m := range md.machineSet.GetMachines() { ... }] *)
Fixpoint validateVolumeConfig_loop (volumeName : string) (machines : list nat) : M (option Err) :=
  match machines with
  | [] => retM None
  | h :: rest =>
      lm <- load h ;;
      match validateMachineMounts volumeName (lm_machine lm) with
      | Some err => retM (Some err)
      | None => validateVolumeConfig_loop volumeName rest
      end
  end.

(** [md.validateVolumeConfig()], [volumeName] being [md.volumeName]. *)
Definition validateVolumeConfig (volumeName : string) : M (option Err) :=
  ms <- getMachineSet ;;
  if isEmpty ms then retM None else validateVolumeConfig_loop volumeName ms.

(** [NewMachineSet(flapsClient, io, machines)]: a new [leasableMachine] per
    machine, in order. *)
Definition NewMachineSet (machines : list Machine) : M (list nat) :=
  mapM alloc machines.

Definition set_machineSet (s : St) (ms : list nat) : St :=
  {| st_heap := st_heap s; st_machineSet := ms;
     st_releaseCommandMachine := st_releaseCommandMachine s;
     st_step := st_step s; st_trace := st_trace s |}.
(** [md.machineSet = ...] *)
Definition setMachineSet (ms : list nat) : M unit := fun _ s => (Done tt, set_machineSet s ms).
(** [md.releaseCommandMachine = ...] *)
Definition setReleaseCommandMachine (ms : list nat) : M unit := fun _ s => (Done tt, set_rel s ms).

(** The answer of [prompt.Confirmf]. *)
Inductive PromptAnswer :=
| PromptConfirmed (confirmed : bool)
| PromptNonInteractive          (* an error with prompt.IsNonInteractive(err) *)
| PromptError (err : Err).

(** The answers of [md.flapsClient.ListFlyAppsMachines], of
    [md.flapsClient.ListActive] and of the migration prompt; each is asked at
    most once. *)
Record ListAnswers := {
  la_listFlyAppsMachines : res (list Machine * option Machine);
  la_listActive : res (list Machine);
  la_confirm : PromptAnswer }.

(** [md.setMachinesForDeployment(ctx)]; the table of the machines to migrate
    and the informational messages are terminal output, omitted. *)
Definition setMachinesForDeployment (la : ListAnswers) (autoConfirmAppsV2Migration : bool)
  : M (option Err) :=
  match la_listFlyAppsMachines la with
  | RErr err => retM (Some err)
  | ROk (machines, releaseCmdMachine) =>
      let assign (machines : list Machine) : M (option Err) :=
        ms <- NewMachineSet machines ;;
        _ <- setMachineSet ms ;;
        let releaseCmdSet := match releaseCmdMachine with Some m => [m] | None => [] end in
        rel <- NewMachineSet releaseCmdSet ;;
        _ <- setReleaseCommandMachine rel ;;
        retM None in
      match machines with
      | _ :: _ => assign machines
      | [] =>
          match la_listActive la with
          | RErr err => retM (Some err)
          | ROk [] => assign []
          | ROk machines =>
              if autoConfirmAppsV2Migration then assign machines else
              match la_confirm la with
              | PromptConfirmed true => assign machines
              | PromptConfirmed false =>
                  ms <- NewMachineSet [] ;; _ <- setMachineSet ms ;; retM None
              | PromptNonInteractive =>
                  retM (Some (EMsg "not running interactively, use --auto-confirm flag to confirm"))
              | PromptError err => retM (Some err)
              end
          end
      end
  end.




(** [md.translateServicesAndChecksForMachines()].  The types of the app
    configuration and their conversions ([ToMachineService],
    [ToMachineCheck], [String]) belong to the [app] package, not in [src/];
    they are parameters here. *)
Section Translate.
Context {HTTPService TopLevelCheck Service ServiceHTTPCheck ServiceTCPCheck : Type}.
Context (httpService_ToMachineService : HTTPService -> MachineService).
Context (check_String : TopLevelCheck -> string).
Context (check_ToMachineCheck : TopLevelCheck -> res MachineCheck).
Context (service_ToMachineService : Service -> MachineService).
Context (service_InternalPort : Service -> Z).
Context (service_HttpChecks : Service -> list ServiceHTTPCheck).
Context (service_TcpChecks : Service -> list ServiceTCPCheck).
Context (httpCheck_String : ServiceHTTPCheck -> Z -> string).
Context (httpCheck_ToMachineCheck : ServiceHTTPCheck -> Z -> res MachineCheck).
Context (tcpCheck_String : ServiceTCPCheck -> Z -> string).
Context (tcpCheck_ToMachineCheck : ServiceTCPCheck -> Z -> res MachineCheck).

(** [for checkName, check := range md.appConfig.Checks], in the order of
    [map_to_list] (one of Go's iteration orders). *)
Fixpoint addTopLevelChecks (checks : list (string * TopLevelCheck)) (acc : gmap string MachineCheck)
  : res (gmap string MachineCheck) :=
  match checks with
  | [] => ROk acc
  | (checkName, check) :: rest =>
      let fullCheckName := "chk-" +:+ checkName +:+ "-" +:+ check_String check in
      match check_ToMachineCheck check with
      | RErr err => RErr err
      | ROk machineCheck => addTopLevelChecks rest (<[fullCheckName := machineCheck]> acc)
      end
  end.

(** [for i, c := range checks { checkName := fmt.Sprintf("svcchk%d-%s", checkCount+i, ...) ... }] *)
Fixpoint addServiceChecks {C} (str : C -> Z -> string) (conv : C -> Z -> res MachineCheck)
  (port : Z) (checkCount i : nat) (checks : list C) (acc : gmap string MachineCheck)
  : res (gmap string MachineCheck) :=
  match checks with
  | [] => ROk acc
  | c :: rest =>
      let checkName := "svcchk" +:+ pretty (checkCount + i)%nat +:+ "-" +:+ str c port in
      match conv c port with
      | RErr err => RErr err
      | ROk machineCheck =>
          addServiceChecks str conv port checkCount (S i) rest (<[checkName := machineCheck]> acc)
      end
  end.

(** [for _, service := range md.appConfig.Services { ... }] *)
Fixpoint translateServices (services : list Service) (checkCount : nat)
  (svcs : list MachineService) (acc : gmap string MachineCheck)
  : res (list MachineService * gmap string MachineCheck) :=
  match services with
  | [] => ROk (svcs, acc)
  | service :: rest =>
      let svcs := svcs ++ [service_ToMachineService service] in
      let port := service_InternalPort service in
      match addServiceChecks httpCheck_String httpCheck_ToMachineCheck port checkCount 0
              (service_HttpChecks service) acc with
      | RErr err => RErr err
      | ROk acc =>
          let checkCount := (checkCount + length (service_HttpChecks service))%nat in
          match addServiceChecks tcpCheck_String tcpCheck_ToMachineCheck port checkCount 0
                  (service_TcpChecks service) acc with
          | RErr err => RErr err
          | ROk acc =>
              translateServices rest (checkCount + length (service_TcpChecks service))%nat svcs acc
          end
      end
  end.

(** The result is the error or the new
    [(md.appServicesForMachines, md.appChecksForMachines)]. *)
Definition translateServicesAndChecksForMachines (httpService : option HTTPService)
  (checks : gmap string TopLevelCheck) (services : list Service)
  : res (list MachineService * gmap string MachineCheck) :=
  let svcs := match httpService with Some hs => [httpService_ToMachineService hs] | None => [] end in
  match addTopLevelChecks (map_to_list checks) ∅ with
  | RErr err => RErr err
  | ROk acc => translateServices services (size checks) svcs acc
  end.
End Translate.


(** ** Example deployments *)

Definition ex_check : MachineCheck := {| chk_Type := "http"; chk_Interval := 15 * Second |}.

Definition ex_machine (id : string) : Machine :=
  {| m_ID := id; m_State := MachineStateStarted; m_Region := "ord";
     m_Config := set_Checks emptyMachineConfig (Some {["http" := ex_check]});
     m_Events := [] |}.

Definition ex_lease (id : string) : MachineLease :=
  {| lease_Status := "success"; lease_Code := ""; lease_Message := "";
     lease_Data := Some {| ld_Nonce := "nonce-" +:+ id; ld_ExpiresAt := 2000 |} |}.

(** A machine holding the lease [ex_lease] hands out. *)
Definition ex_leased (id : string) : leasableMachine :=
  set_lease (NewLeasableMachine (ex_machine id)) ("nonce-" +:+ id) (time_Unix 2000).

(** Flaps answers: the clock stays at 1000s; leases and updates fail for the
    machine ids selected; the first [Get] fails with a 503 when [getFlaky]. *)
Definition ex_env (leaseFails updateFails : string -> bool) (getFlaky : bool) : Env :=
  {| e_now := fun _ => 1000 * Second;
     e_ctxCanceled := fun _ => false;
     e_acquireLease := fun _ id _ =>
       if leaseFails id then RErr (EApi "lease conflict") else ROk (ex_lease id);
     e_releaseLease := fun _ _ _ => None;
     e_update := fun _ li _ =>
       if updateFails (li_ID li) then RErr (EApi "update failed") else ROk (ex_machine (li_ID li));
     e_launch := fun _ _ => ROk (ex_machine "new");
     e_wait := fun _ _ _ => None;
     e_get := fun n id =>
       if getFlaky && Nat.eqb n 0 then RErr (EApi "503 service unavailable") else ROk (ex_machine id);
     e_fuel := 10 |}.

Definition ex_api (exitCode : Z) : Api :=
  {| AllPassing := fun _ => true;
     GetLatestEventOfTypeAfterType := fun _ _ _ =>
       Some {| ev_Type := "exit"; ev_Timestamp := 0; ev_Request := "" |};
     GetExitCode := fun _ => ROk exitCode |}.

Definition ex_md (strategy releaseCommand : string) (restartOnly : bool) : machineDeployment :=
  {| md_appName := "web"; md_appOrgID := "personal"; md_isPostgresApp := false;
     md_primaryRegion := "ord"; md_appEnv := ∅; md_appMetrics := None; md_imgTag := "web:v2";
     md_releaseCommand := releaseCommand; md_volumeDestination := "";
     md_appChecksForMachines := {["http" := ex_check]}; md_appServicesForMachines := [];
     md_strategy := strategy; md_releaseId := "rel-2"; md_releaseVersion := 2;
     md_skipHealthChecks := false; md_restartOnly := restartOnly;
     md_waitTimeout := 120 * Second; md_leaseTimeout := 1800 * Second |}.

Definition ex_ctx (md : machineDeployment) (env : Env) (exitCode : Z) : Ctx :=
  {| c_md := md; c_env := env; c_api := ex_api exitCode |}.

Definition ex_state (heap : list leasableMachine) (ms rel : list nat) : St :=
  {| st_heap := heap; st_machineSet := ms; st_releaseCommandMachine := rel;
     st_step := 0; st_trace := [] |}.

Definition no_id : string -> bool := fun _ => false.

(** A rolling deployment of [m1] with release command "migrate", whose
    release machine [rc] (handle 1) exits with code 7. *)
Definition ex_release_ctx : Ctx := ex_ctx (ex_md "rolling" "migrate" false) (ex_env no_id no_id false) 7.
Definition ex_release_state : St :=
  ex_state [NewLeasableMachine (ex_machine "m1"); NewLeasableMachine (ex_machine "rc")] [0%nat] [1%nat].

(** Three leased machines; the update of [m2] fails. *)
Definition ex_update_ctx (strategy : string) : Ctx :=
  ex_ctx (ex_md strategy "" false) (ex_env no_id (String.eqb "m2") false) 0.
Definition ex_update_state : St :=
  ex_state [ex_leased "m1"; ex_leased "m2"; ex_leased "m3"] [0; 1; 2]%nat [].
Definition ex_update_input : LaunchMachineInput :=
  default {| li_ID := ""; li_AppID := ""; li_OrgSlug := ""; li_Config := emptyMachineConfig;
             li_Region := "" |}
    (resolveUpdatedMachineConfig (ex_md "rolling" "" false) MachineProcessGroupApp
       (Some (ex_machine "m2"))).

(** [m1] resolved in restart-only mode. *)
Definition ex_restart_input : LaunchMachineInput :=
  default {| li_ID := ""; li_AppID := ""; li_OrgSlug := ""; li_Config := emptyMachineConfig;
             li_Region := "" |}
    (resolveUpdatedMachineConfig (ex_md "rolling" "" true) MachineProcessGroupApp
       (Some (ex_machine "m1"))).

(** One machine [m1] with a check; its first [Get] fails with a 503. *)
Definition ex_flaky_ctx : Ctx := ex_ctx (ex_md "rolling" "" false) (ex_env no_id no_id true) 0.
Definition ex_single_state : St := ex_state [NewLeasableMachine (ex_machine "m1")] [0%nat] [].

(** Two machines without leases; acquiring the lease of [m2] fails. *)
Definition ex_lease_ctx : Ctx := ex_ctx (ex_md "rolling" "" false) (ex_env (String.eqb "m2") no_id false) 0.
Definition ex_lease_state : St :=
  ex_state [NewLeasableMachine (ex_machine "m1"); NewLeasableMachine (ex_machine "m2")] [0; 1]%nat [].

(** A stopped machine [m4] with one volume [data] mounted at /old and
    PRIMARY_REGION=ams in its environment. *)
Definition ex_vol_machine : Machine :=
  {| m_ID := "m4"; m_State := MachineStateStopped; m_Region := "ams";
     m_Config := set_Mounts (set_Env emptyMachineConfig {["PRIMARY_REGION" := "ams"]})
                   [{| mnt_Volume := "vol_1"; mnt_Path := "/old"; mnt_Name := "data" |}];
     m_Events := [] |}.
Definition ex_vol_input : LaunchMachineInput :=
  default {| li_ID := ""; li_AppID := ""; li_OrgSlug := ""; li_Config := emptyMachineConfig;
             li_Region := "" |}
    (resolveUpdatedMachineConfig (ex_md "rolling" "" false) MachineProcessGroupApp
       (Some ex_vol_machine)).

(** [m4] next to [m1], which has no volume. *)
Definition ex_vol_state : St :=
  ex_state [NewLeasableMachine ex_vol_machine; NewLeasableMachine (ex_machine "m1")] [0; 1]%nat [].

(** A migration: no platform machine, a release machine [rc], and two
    active machines [m1] and [m2]. *)
Definition ex_migration (confirm : PromptAnswer) : ListAnswers :=
  {| la_listFlyAppsMachines := ROk ([], Some (ex_machine "rc"));
     la_listActive := ROk [ex_machine "m1"; ex_machine "m2"];
     la_confirm := confirm |}.

(** An app configuration whose services are a machine service with its
    HTTP and TCP checks, all given as machine checks. *)
Definition ex_service : MachineService * list MachineCheck * list MachineCheck :=
  ({| svc_Protocol := "tcp"; svc_InternalPort := 8080 |}, [ex_check; ex_check],
   [{| chk_Type := "tcp"; chk_Interval := 10 * Second |}]).

(** ** Relations used by the proofs *)

(** [m] only moves the state along [R]. *)
Definition Preserves (R : relation St) {A} (m : M A) : Prop :=
  forall c s, R s (snd (m c s)).

(** [R] allows the steps a method of the machine [h] takes: reading the
    oracle, recording an event of [h] or of no machine, and writing [h]. *)
Definition HandleOK (R : relation St) (h : nat) : Prop :=
  (forall s, R s (incr_step s)) /\
  (forall s ev, (ev_handle ev = None \/ ev_handle ev = Some h) -> R s (add_event s ev)) /\
  (forall s lm, R s (set_heap s (<[h := lm]> (st_heap s)))).

(** [R] allows the steps that belong to no machine. *)
Definition NoHandleOK (R : relation St) : Prop :=
  (forall s, R s (incr_step s)) /\
  (forall s ev, ev_handle ev = None -> R s (add_event s ev)).

(** A machine handle whose local lease state is cleared. *)
Definition cleared (s : St) (h : nat) : Prop :=
  exists lm, st_heap s !! h = Some lm /\ lm_leaseNonce lm = "" /\ lm_leaseExpiration lm = zero_time.

(** The heap keeps its size. *)
Definition R_len (s s' : St) : Prop := length (st_heap s) = length (st_heap s').

(** Frame of a computation that may only act on the handles of [P]: the app
    machine set is the same, every machine outside [P] is untouched, and the
    trace only grows by events of machines of [P] or of no machine. *)
Definition app_frame (P : nat -> Prop) (s s' : St) : Prop :=
  st_machineSet s' = st_machineSet s /\
  (forall h, ~ P h -> st_heap s' !! h = st_heap s !! h) /\
  exists new, st_trace s' = st_trace s ++ new /\
    Forall (fun ev => forall h, ev_handle ev = Some h -> P h) new.

(** Fresh handles and the release-command machines are in [P]. *)
Definition rel_inv (P : nat -> Prop) (s : St) : Prop :=
  (forall h, (length (st_heap s) <= h)%nat -> P h) /\ Forall P (st_releaseCommandMachine s).

Definition R_app (P : nat -> Prop) (s s' : St) : Prop :=
  rel_inv P s -> rel_inv P s' /\ app_frame P s s'.

(** * Properties *)

(** The machine set and the heap size stay the same. *)
Definition R_set (s s' : St) : Prop :=
  st_machineSet s' = st_machineSet s /\ length (st_heap s') = length (st_heap s).

(** The mounts [validateVolumeConfig] accepts on a machine. *)
Definition mounts_ok (volumeName : string) (m : Machine) : Prop :=
  if String.eqb volumeName "" then mc_Mounts (m_Config m) = []
  else exists mt, mc_Mounts (m_Config m) = [mt] /\ mnt_Name mt = volumeName.

Definition no_dash (s : string) : Prop := forall k, String.get k s <> Some "-"%char.

(** A key of a service check, with its index. *)
Definition svc_key (k : string) (n : nat) : Prop :=
  exists x, k = ("svcchk" +:+ pretty n +:+ "-" +:+ x)%string.

(** Every service-check key of the map has an index below [n]. *)
Definition fresh_svc_keys (acc : gmap string MachineCheck) (n : nat) : Prop :=
  forall k m, acc !! k <> None -> svc_key k m -> (m < n)%nat.

(** ** Evaluation of the primitives *)

Lemma lookup_lt (hp : list leasableMachine) (h : nat) lm :
  hp !! h = Some lm -> (h < length hp)%nat.
Proof. intros Hl. apply lookup_lt_Some in Hl. exact Hl. Qed.

Lemma HasLease_eval (c : Ctx) (s : St) (h : nat) (lm : leasableMachine) :
  st_heap s !! h = Some lm ->
  lm_HasLease h c s = (Done (leaseHeld lm (e_now (c_env c) (st_step s))), incr_step s).
Proof. intros Hl. unfold lm_HasLease, bindM, load, now, askEnv, tick, retM. rewrite Hl. reflexivity. Qed.

Lemma resetLease_eval (c : Ctx) (s : St) (h : nat) (lm : leasableMachine) :
  st_heap s !! h = Some lm ->
  lm_resetLease h c s = (Done tt, set_heap s (<[h := set_lease lm "" zero_time]> (st_heap s))).
Proof.
  intros Hl. unfold lm_resetLease, bindM, load, store. rewrite Hl.
  rewrite decide_True by (eapply lookup_lt; eauto). reflexivity.
Qed.

Ltac run_prims :=
  cbv beta iota zeta delta [bindM retM now ctxCanceled askEnv askApi askMd tick emit warn load
       flaps_AcquireLease flaps_ReleaseLease flaps_Update flaps_Launch flaps_Wait flaps_Get
       sleep_backoff getMachineSet getReleaseCommandMachine panic outOfFuel
       st_heap st_step st_trace st_machineSet st_releaseCommandMachine
       incr_step add_event set_heap set_rel c_env c_api c_md].

Lemma heap_incr_step (s : St) : st_heap (incr_step s) = st_heap s.
Proof. reflexivity. Qed.
Lemma heap_add_event (s : St) ev : st_heap (add_event s ev) = st_heap s.
Proof. reflexivity. Qed.
Lemma heap_set_heap (s : St) hp : st_heap (set_heap s hp) = hp.
Proof. reflexivity. Qed.

Lemma set_lease_lookup (hp : list leasableMachine) (h : nat) lm lm' :
  hp !! h = Some lm -> <[h := lm']> hp !! h = Some lm'.
Proof. intros Hl. apply list_lookup_insert_eq. eapply lookup_lt; eauto. Qed.

Lemma ReleaseLease_eval (c : Ctx) (s : St) (h : nat) (lm : leasableMachine) :
  st_heap s !! h = Some lm ->
  let t1 := e_now (c_env c) (st_step s) in
  let t2 := e_now (c_env c) (S (st_step s)) in
  let id := m_ID (lm_machine lm) in
  let reset s := set_heap s (<[h := set_lease lm "" zero_time]> (st_heap s)) in
  lm_ReleaseLease h c s =
    if negb (leaseHeld lm t1) then (Done None, reset (incr_step s))
    else if Z.ltb (5 * Second) (t2 - lm_leaseExpiration lm)
    then (Done None, reset (incr_step (incr_step s)))
    else
      let s3 := add_event (incr_step (incr_step (incr_step s))) (EvReleaseLease h id (lm_leaseNonce lm)) in
      match e_releaseLease (c_env c) (S (S (st_step s))) id (lm_leaseNonce lm) with
      | Some err => (Done (Some err), reset (add_event s3 (EvWarn ("failed to release lease for machine " +:+ id))))
      | None => (Done None, reset s3)
      end.
Proof.
  intros Hl t1 t2 id reset. subst t1 t2 id reset.
  destruct s as [hp ms rel n tr]; cbn in Hl |- *.
  unfold lm_ReleaseLease. run_prims. rewrite (HasLease_eval c _ h lm) by exact Hl. run_prims.
  destruct (leaseHeld lm _) eqn:Eh; cbn [negb].
  - rewrite Hl. run_prims.
    destruct (Z.ltb _ _) eqn:E5.
    + rewrite (resetLease_eval c _ h lm) by exact Hl. reflexivity.
    + destruct (e_releaseLease _ _ _ _) eqn:Er.
      * rewrite (resetLease_eval c _ h lm) by exact Hl. reflexivity.
      * rewrite (resetLease_eval c _ h lm) by exact Hl. reflexivity.
  - rewrite (resetLease_eval c _ h lm) by exact Hl. reflexivity.
Qed.

Lemma Update_eval (c : Ctx) (s : St) (h : nat) (lm : leasableMachine) (input : LaunchMachineInput) :
  st_heap s !! h = Some lm ->
  lm_Update h input c s =
    if negb (leaseHeld lm (e_now (c_env c) (st_step s)))
    then (Done (Some (EMsg ("no current lease for machine " +:+ m_ID (lm_machine lm)))), incr_step s)
    else
      let s2 := add_event (incr_step (incr_step s)) (EvUpdate h input (lm_leaseNonce lm)) in
      match e_update (c_env c) (S (st_step s)) input (lm_leaseNonce lm) with
      | RErr err => (Done (Some err), s2)
      | ROk m => (Done None, set_heap s2 (<[h := set_machine lm m]> (st_heap s2)))
      end.
Proof.
  intros Hl. destruct s as [hp ms rel n tr]; cbn in Hl |- *.
  unfold lm_Update. run_prims. rewrite (HasLease_eval c _ h lm) by exact Hl. run_prims.
  rewrite Hl. run_prims.
  destruct (leaseHeld lm _); cbn [negb]; [|reflexivity].
  run_prims. destruct (e_update _ _ _ _); [|reflexivity].
  unfold store. run_prims.
  rewrite decide_True by (eapply lookup_lt; exact Hl).
  reflexivity.
Qed.

(** ** Leases of one machine *)

(** C3: [Update] checks the lease at call time.  Without a lease it returns
    the "no current lease" error, issues no flaps call and changes nothing;
    with a lease it issues exactly one flaps update carrying the lease nonce,
    and a successful answer replaces the machine snapshot. *)
Theorem Update_requires_lease (c : Ctx) (s : St) (h : nat) (lm : leasableMachine)
  (input : LaunchMachineInput) :
  st_heap s !! h = Some lm ->
  let t := e_now (c_env c) (st_step s) in
  let answer := e_update (c_env c) (S (st_step s)) input (lm_leaseNonce lm) in
  (leaseHeld lm t = false ->
     exists s', lm_Update h input c s
                = (Done (Some (EMsg ("no current lease for machine " +:+ m_ID (lm_machine lm)))), s')
       /\ st_trace s' = st_trace s /\ st_heap s' = st_heap s) /\
  (leaseHeld lm t = true ->
     exists r s', lm_Update h input c s = (Done r, s') /\
       st_trace s' = st_trace s ++ [EvUpdate h input (lm_leaseNonce lm)] /\
       (forall m, answer = ROk m -> r = None /\ st_heap s' !! h = Some (set_machine lm m)) /\
       (forall err, answer = RErr err -> r = Some err /\ st_heap s' = st_heap s)).
Proof.
  intros Hl t answer. rewrite (Update_eval c s h lm input Hl). subst t answer. split.
  - intros ->. cbn [negb]. eexists; split; [reflexivity|]. split; reflexivity.
  - intros ->. cbn [negb]. destruct (e_update _ _ _ _) as [m|err] eqn:Eu.
    + do 2 eexists; split; [reflexivity|]. split; [reflexivity|]. split.
      * intros m' [= <-]. split; [reflexivity|]. cbn. eapply set_lease_lookup. exact Hl.
      * intros err [=].
    + do 2 eexists; split; [reflexivity|]. split; [reflexivity|]. split.
      * intros m' [=].
      * intros err' [= <-]. split; reflexivity.
Qed.

(** C7: [ReleaseLease] with no lease held at call time, or with a lease that
    expired more than five seconds ago, issues no flaps call, returns nil and
    clears the local lease.  With a nonce whose expiry is still in the future
    at both clock reads, it issues the flaps release with that nonce; a failed
    release is warned about and still clears the local lease. *)
Theorem ReleaseLease_expiry_tolerance (c : Ctx) (s : St) (h : nat) (lm : leasableMachine) :
  st_heap s !! h = Some lm ->
  let t1 := e_now (c_env c) (st_step s) in
  let t2 := e_now (c_env c) (S (st_step s)) in
  let id := m_ID (lm_machine lm) in
  let answer := e_releaseLease (c_env c) (S (S (st_step s))) id (lm_leaseNonce lm) in
  ((leaseHeld lm t1 = false \/ 5 * Second < t1 - lm_leaseExpiration lm) ->
     exists s', lm_ReleaseLease h c s = (Done None, s') /\ st_trace s' = st_trace s /\
       st_heap s' !! h = Some (set_lease lm "" zero_time)) /\
  (lm_leaseNonce lm <> "" -> t1 < lm_leaseExpiration lm -> t2 < lm_leaseExpiration lm ->
     exists s', lm_ReleaseLease h c s = (Done answer, s') /\
       st_heap s' !! h = Some (set_lease lm "" zero_time) /\
       st_trace s' = st_trace s ++ EvReleaseLease h id (lm_leaseNonce lm) ::
         match answer with
         | Some _ => [EvWarn ("failed to release lease for machine " +:+ id)]
         | None => []
         end).
Proof.
  intros Hl t1 t2 id answer. rewrite (ReleaseLease_eval c s h lm Hl).
  subst t1 t2 id answer. split.
  - intros Hno.
    assert (Hf : leaseHeld lm (e_now (c_env c) (st_step s)) = false).
    { destruct Hno as [Hno|Hno]; [exact Hno|]. unfold leaseHeld.
      apply andb_false_intro2. apply Z.ltb_ge. unfold Second, Millisecond in Hno. lia. }
    rewrite Hf. cbn [negb]. eexists; split; [reflexivity|]. split; [reflexivity|].
    cbn. eapply set_lease_lookup. exact Hl.
  - intros Hn Ht1 Ht2.
    assert (Ht : leaseHeld lm (e_now (c_env c) (st_step s)) = true).
    { unfold leaseHeld. apply andb_true_intro. split.
      - apply negb_true_iff. apply String.eqb_neq. exact Hn.
      - apply Z.ltb_lt. exact Ht1. }
    rewrite Ht. cbn [negb].
    rewrite (proj2 (Z.ltb_ge _ _)) by (unfold Second, Millisecond; lia).
    destruct (e_releaseLease _ _ _ _) eqn:Er.
    + eexists; split; [reflexivity|]. split.
      * cbn. eapply set_lease_lookup. exact Hl.
      * cbn. rewrite <- app_assoc. reflexivity.
    + eexists; split; [reflexivity|]. split.
      * cbn. eapply set_lease_lookup. exact Hl.
      * reflexivity.
Qed.

(** C10: every return of [ReleaseLease] leaves the local lease cleared (empty
    nonce, zero expiration), so [HasLease] is false afterwards, whichever of
    the four paths was taken, also when the flaps release failed. *)
Theorem ReleaseLease_always_clears (c : Ctx) (s : St) (h : nat) (lm : leasableMachine) :
  st_heap s !! h = Some lm ->
  exists r s', lm_ReleaseLease h c s = (Done r, s') /\
    st_heap s' !! h = Some (set_lease lm "" zero_time) /\
    lm_leaseNonce (set_lease lm "" zero_time) = "" /\
    lm_leaseExpiration (set_lease lm "" zero_time) = zero_time /\
    (forall c', fst (lm_HasLease h c' s') = Done false).
Proof.
  intros Hl. rewrite (ReleaseLease_eval c s h lm Hl).
  assert (Hfin : forall s', st_heap s' !! h = Some (set_lease lm "" zero_time) ->
            forall c', fst (lm_HasLease h c' s') = Done false).
  { intros s' Hs' c'. rewrite (HasLease_eval c' s' h _ Hs'). reflexivity. }
  destruct (negb (leaseHeld lm _)); [|destruct (Z.ltb _ _); [|destruct (e_releaseLease _ _ _ _)]];
    (do 2 eexists; split; [reflexivity|]);
    (assert (Hh : st_heap s !! h = Some lm) by exact Hl);
    (split; [cbn; eapply set_lease_lookup; exact Hh|]);
    (split; [reflexivity|]); (split; [reflexivity|]);
    apply Hfin; cbn; eapply set_lease_lookup; exact Hh.
Qed.

(** ** What a computation may change *)

Section Preserves.
Context (R : relation St) `{!PreOrder R}.

Lemma pres_bind {A B} (m : M A) (k : A -> M B) :
  Preserves R m -> (forall a, Preserves R (k a)) -> Preserves R (bindM m k).
Proof.
  intros Hm Hk c s. specialize (Hm c s). unfold bindM.
  destruct (m c s) as [[a| |] s1]; cbn in *; [|exact Hm|exact Hm].
  etransitivity; [exact Hm|apply Hk].
Qed.

Lemma pres_ret {A} (a : A) : Preserves R (retM a).
Proof. intros c s. reflexivity. Qed.
Lemma pres_panic {A} : Preserves R (@panic A).
Proof. intros c s. reflexivity. Qed.
Lemma pres_outOfFuel {A} : Preserves R (@outOfFuel A).
Proof. intros c s. reflexivity. Qed.
Lemma pres_askMd : Preserves R askMd.
Proof. intros c s. reflexivity. Qed.
Lemma pres_askEnv : Preserves R askEnv.
Proof. intros c s. reflexivity. Qed.
Lemma pres_askApi : Preserves R askApi.
Proof. intros c s. reflexivity. Qed.
Lemma pres_getMachineSet : Preserves R getMachineSet.
Proof. intros c s. reflexivity. Qed.
Lemma pres_load h : Preserves R (load h).
Proof. intros c s. unfold load. destruct (st_heap s !! h); reflexivity. Qed.

Lemma pres_withDefer {A} (body : M A) (cleanup : M unit) :
  Preserves R body -> Preserves R cleanup -> Preserves R (withDefer body cleanup).
Proof.
  intros Hb Hc c s. specialize (Hb c s). unfold withDefer.
  destruct (body c s) as [[a| |] s1]; cbn in *;
    [destruct (cleanup c s1) as [[]s2] eqn:E; specialize (Hc c s1); rewrite E in Hc;
       cbn in *; etransitivity; eauto
    |destruct (cleanup c s1) as [[]s2] eqn:E; specialize (Hc c s1); rewrite E in Hc;
       cbn in *; etransitivity; eauto
    |exact Hb].
Qed.

Section Handle.
Context (h : nat) (Hh : HandleOK R h).

Lemma pres_tick : Preserves R tick.
Proof. intros c s. apply Hh. Qed.
Lemma pres_emit ev : (ev_handle ev = None \/ ev_handle ev = Some h) -> Preserves R (emit ev).
Proof. intros He c s. apply Hh, He. Qed.
Lemma pres_warn msg : Preserves R (warn msg).
Proof. apply pres_emit. left; reflexivity. Qed.
Lemma pres_store lm : Preserves R (store h lm).
Proof.
  intros c s. unfold store. destruct (decide _); cbn; [apply Hh|reflexivity].
Qed.
End Handle.
End Preserves.

(** Unfold one layer of a method into binds and apply the lemmas above. *)
Ltac pres_inst := try (match goal with |- PreOrder _ => first [assumption | typeclasses eauto] end).
Ltac pres_step :=
  match goal with
  | |- Preserves _ (bindM _ _) => apply pres_bind; pres_inst; [|intros ?]
  | |- Preserves _ (retM _) => apply pres_ret
  | |- Preserves _ panic => apply pres_panic
  | |- Preserves _ outOfFuel => apply pres_outOfFuel
  | |- Preserves _ askMd => apply pres_askMd
  | |- Preserves _ askEnv => apply pres_askEnv
  | |- Preserves _ askApi => apply pres_askApi
  | |- Preserves _ getMachineSet => apply pres_getMachineSet
  | |- Preserves _ (load _) => apply pres_load
  | |- Preserves _ (withDefer _ _) => apply pres_withDefer; pres_inst
  | |- Preserves _ (match ?x with _ => _ end) => destruct x
  | |- Preserves _ (if ?b then _ else _) => destruct b
  end; pres_inst.

Lemma HandleOK_NoHandleOK R h : HandleOK R h -> NoHandleOK R.
Proof. intros (H1 & H2 & _). split; [exact H1|]. intros s ev He. apply H2. left; exact He. Qed.

Section Methods.
Context (R : relation St) `{!PreOrder R} (Hn : NoHandleOK R).

Lemma pres_tick' : Preserves R tick.
Proof. intros c s. apply Hn. Qed.
Lemma pres_warn' msg : Preserves R (warn msg).
Proof. intros c s. apply Hn. reflexivity. Qed.
Lemma pres_now : Preserves R now.
Proof. unfold now. repeat pres_step. apply pres_tick'. Qed.
Lemma pres_ctxCanceled : Preserves R ctxCanceled.
Proof. unfold ctxCanceled. repeat pres_step. apply pres_tick'. Qed.
Lemma pres_sleep bmin bmax : Preserves R (sleep_backoff bmin bmax).
Proof. intros c s. apply Hn. reflexivity. Qed.
Lemma pres_Launch input : Preserves R (flaps_Launch input).
Proof.
  unfold flaps_Launch. repeat pres_step.
  all: try apply pres_tick'.
  all: intros c s; apply Hn; reflexivity.
Qed.

Lemma pres_collectErrors keep msg results b :
  Preserves R (collectErrors keep msg results b).
Proof.
  revert b. induction results as [|[err|] rest IH]; intros b; cbn [collectErrors].
  - (apply pres_ret; pres_inst).
  - destruct (keep err); [|apply IH].
    apply pres_bind; pres_inst; [apply pres_warn'|intros _; apply IH].
  - apply IH.
Qed.

Lemma pres_mapM {A B} (f : A -> M B) (l : list A) :
  Forall (fun x => Preserves R (f x)) l -> Preserves R (mapM f l).
Proof.
  induction 1 as [|x l Hx Hl IH]; cbn [mapM]; [(apply pres_ret; pres_inst)|].
  repeat pres_step; auto.
Qed.

Section OneHandle.
Context (h : nat) (Hh : HandleOK R h).

Ltac go := repeat (pres_step || apply pres_now || apply pres_warn' || apply pres_sleep
                   || apply (pres_tick' ) || (apply (pres_store R h Hh); pres_inst)
                   || (apply (pres_emit R h Hh); pres_inst; cbn; auto)).

Lemma pres_AcquireLease_call id secs : Preserves R (flaps_AcquireLease h id secs).
Proof. unfold flaps_AcquireLease. go. Qed.
Lemma pres_ReleaseLease_call id nonce : Preserves R (flaps_ReleaseLease h id nonce).
Proof. unfold flaps_ReleaseLease. go. Qed.
Lemma pres_Update_call input nonce : Preserves R (flaps_Update h input nonce).
Proof. unfold flaps_Update. go. Qed.
Lemma pres_Wait_call m d : Preserves R (flaps_Wait h m d).
Proof. unfold flaps_Wait. go. Qed.
Lemma pres_Get_call id : Preserves R (flaps_Get h id).
Proof. unfold flaps_Get. go. Qed.

Ltac go' := repeat (go || apply pres_AcquireLease_call || apply pres_ReleaseLease_call
                    || apply pres_Update_call || apply pres_Wait_call || apply pres_Get_call).

Lemma pres_HasLease : Preserves R (lm_HasLease h).
Proof. unfold lm_HasLease. go'. Qed.
Lemma pres_resetLease : Preserves R (lm_resetLease h).
Proof. unfold lm_resetLease. go'. Qed.
Lemma pres_machineID : Preserves R (machineID h).
Proof. unfold machineID. go'. Qed.

Ltac go'' := repeat (go' || apply pres_HasLease || apply pres_resetLease || apply pres_machineID).

Lemma pres_Update input : Preserves R (lm_Update h input).
Proof. unfold lm_Update. go''. Qed.
Lemma pres_AcquireLease d : Preserves R (lm_AcquireLease h d).
Proof. unfold lm_AcquireLease. go''. Qed.
Lemma pres_ReleaseLease : Preserves R (lm_ReleaseLease h).
Proof. unfold lm_ReleaseLease. go''. Qed.
Lemma pres_waitForState_loop fuel d : Preserves R (waitForState_loop fuel h d).
Proof. induction fuel; cbn [waitForState_loop]; repeat (go'' || apply IHfuel). Qed.
Lemma pres_WaitForState d t : Preserves R (lm_WaitForState h d t).
Proof. unfold lm_WaitForState. go''. apply pres_waitForState_loop. Qed.
Lemma pres_healthchecks_loop fuel bmin bmax : Preserves R (healthchecks_loop fuel h bmin bmax).
Proof. induction fuel; cbn [healthchecks_loop]; repeat (go'' || apply IHfuel). Qed.
Lemma pres_WaitForHealthchecksToPass t : Preserves R (lm_WaitForHealthchecksToPass h t).
Proof. unfold lm_WaitForHealthchecksToPass. go''. apply pres_healthchecks_loop. Qed.
Lemma pres_eventAfter_loop fuel t1 t2 : Preserves R (eventAfter_loop fuel h t1 t2).
Proof. induction fuel; cbn [eventAfter_loop]; repeat (go'' || apply IHfuel). Qed.
Lemma pres_WaitForEventTypeAfterType t1 t2 t : Preserves R (lm_WaitForEventTypeAfterType h t1 t2 t).
Proof. unfold lm_WaitForEventTypeAfterType. go''. apply pres_eventAfter_loop. Qed.
End OneHandle.

Lemma pres_ReleaseLeases (ms : list nat) :
  Forall (HandleOK R) ms -> Preserves R (ms_ReleaseLeases ms).
Proof.
  intros Hms. unfold ms_ReleaseLeases.
  repeat (pres_step || apply pres_ctxCanceled || apply pres_collectErrors).
  apply pres_mapM. eapply Forall_impl; [exact Hms|]. intros h Hh. apply pres_ReleaseLease, Hh.
Qed.

Lemma pres_AcquireLeases (ms : list nat) d :
  Forall (HandleOK R) ms -> Preserves R (ms_AcquireLeases ms d).
Proof.
  intros Hms. unfold ms_AcquireLeases.
  repeat (pres_step || apply pres_collectErrors || apply pres_warn' || apply pres_ReleaseLeases).
  - apply pres_mapM. eapply Forall_impl; [exact Hms|]. intros h Hh. apply pres_AcquireLease, Hh.
  - exact Hms.
Qed.
End Methods.

(** ** Fleet leases *)

Lemma collectErrors_eval keep msg results (b : bool) (c : Ctx) (s : St) :
  exists s', collectErrors keep msg results b c s =
    (Done (b || existsb (fun r => match r with Some e => keep e | None => false end) results), s') /\
    st_heap s' = st_heap s.
Proof.
  revert b s. induction results as [|[err|] rest IH]; intros b s; cbn [collectErrors existsb].
  - exists s. rewrite orb_false_r. split; reflexivity.
  - destruct (keep err) eqn:Ek.
    + unfold bindM, warn, emit. destruct (IH true (add_event s (EvWarn msg))) as (s' & E & Hh).
      exists s'. rewrite E, orb_true_r. split; [reflexivity|exact Hh].
    + destruct (IH b s) as (s' & E & Hh). exists s'. rewrite E. split; [reflexivity|exact Hh].
  - destruct (IH b s) as (s' & E & Hh). exists s'. rewrite E. split; [reflexivity|exact Hh].
Qed.

Lemma ReleaseLease_heap (c : Ctx) (s : St) (h : nat) (lm : leasableMachine) :
  st_heap s !! h = Some lm ->
  exists r s', lm_ReleaseLease h c s = (Done r, s') /\
    st_heap s' = <[h := set_lease lm "" zero_time]> (st_heap s).
Proof.
  intros Hl. rewrite (ReleaseLease_eval c s h lm Hl).
  destruct (negb (leaseHeld lm _)); [|destruct (Z.ltb _ _); [|destruct (e_releaseLease _ _ _ _)]];
    do 2 eexists; split; reflexivity.
Qed.

Lemma cleared_insert (s s' : St) (h h0 : nat) lm :
  st_heap s !! h = Some lm ->
  st_heap s' = <[h := set_lease lm "" zero_time]> (st_heap s) ->
  cleared s h0 -> cleared s' h0.
Proof.
  intros Hl Hs' (lm0 & Hl0 & Hn & He). unfold cleared. rewrite Hs'. destruct (decide (h = h0)) as [<-|Hne].
  - exists (set_lease lm "" zero_time). split; [eapply set_lease_lookup; exact Hl|].
    split; reflexivity.
  - exists lm0. split; [|split; assumption]. rewrite list_lookup_insert_ne by exact Hne. exact Hl0.
Qed.

Lemma cleared_HasLease (c : Ctx) (s : St) (h : nat) :
  cleared s h -> fst (lm_HasLease h c s) = Done false.
Proof.
  intros (lm & Hl & Hn & He). rewrite (HasLease_eval c s h lm Hl). cbn.
  unfold leaseHeld. rewrite Hn. reflexivity.
Qed.

Lemma mapM_ReleaseLease_clears (c : Ctx) (ms : list nat) (s : St) :
  Forall (fun h => h < length (st_heap s))%nat ms ->
  exists rs s', mapM lm_ReleaseLease ms c s = (Done rs, s') /\
    length (st_heap s') = length (st_heap s) /\
    (forall h0, cleared s h0 -> cleared s' h0) /\
    Forall (cleared s') ms.
Proof.
  revert s. induction ms as [|h ms IH]; intros s Hms.
  - do 2 eexists. split; [reflexivity|]. split; [reflexivity|]. split; [auto|constructor].
  - inversion Hms as [|? ? Hh Hrest]; subst.
    destruct (lookup_lt_is_Some_2 _ _ Hh) as [lm Hl].
    destruct (ReleaseLease_heap c s h lm Hl) as (r & s1 & E1 & Hs1).
    assert (Hlen : length (st_heap s1) = length (st_heap s)) by (rewrite Hs1; apply length_insert).
    destruct (IH s1) as (rs & s2 & E2 & Hlen2 & Hkeep & Hall).
    { rewrite Hlen. exact Hrest. }
    exists (r :: rs), s2. cbn [mapM]. unfold bindM at 1. rewrite E1.
    unfold bindM at 1. rewrite E2. split; [reflexivity|].
    split; [congruence|]. split.
    + intros h0 H0. apply Hkeep. eapply cleared_insert; eauto.
    + constructor; [|exact Hall]. apply Hkeep. exists (set_lease lm "" zero_time).
      rewrite Hs1. split; [eapply set_lease_lookup; exact Hl|split; reflexivity].
Qed.

Lemma cleared_heap (s s' : St) (h : nat) :
  st_heap s' = st_heap s -> cleared s h -> cleared s' h.
Proof. intros E. unfold cleared. rewrite E. exact id. Qed.

Lemma ReleaseLeases_clears (c : Ctx) (ms : list nat) (s : St) :
  Forall (fun h => h < length (st_heap s))%nat ms ->
  exists r s', ms_ReleaseLeases ms c s = (Done r, s') /\
    length (st_heap s') = length (st_heap s) /\ Forall (cleared s') ms.
Proof.
  intros Hms. unfold ms_ReleaseLeases. unfold bindM at 1.
  change (ctxCanceled c s) with (Done (e_ctxCanceled (c_env c) (st_step s)), incr_step s).
  cbv beta iota.
  destruct (mapM_ReleaseLease_clears c ms (incr_step s) Hms) as (rs & s1 & E1 & Hlen & _ & Hall).
  unfold bindM at 1. rewrite E1. cbv beta iota.
  match goal with |- context [collectErrors ?k ?m rs false] =>
    destruct (collectErrors_eval k m rs false c s1) as (s2 & E2 & Hh2) end.
  unfold bindM at 1. rewrite E2. cbv beta iota.
  match type of E2 with _ = (Done ?b, _) =>
    exists (if b then Some (EMsg "error releasing leases on machines") else None), s2 end.
  split; [destruct (_ || _); reflexivity|].
  split; [rewrite Hh2; exact Hlen|].
  eapply Forall_impl; [exact Hall|]. intros h. apply cleared_heap, Hh2.
Qed.

#[export] Instance R_len_PreOrder : PreOrder R_len.
Proof. split; [intros s; reflexivity|intros s1 s2 s3 E1 E2; unfold R_len in *; congruence]. Qed.

Lemma R_len_HandleOK (h : nat) : HandleOK R_len h.
Proof.
  split; [|split].
  - intros s. reflexivity.
  - intros s ev _. reflexivity.
  - intros s lm. unfold R_len. cbn. rewrite length_insert. reflexivity.
Qed.

(** C2: when one lease acquisition of the fleet fails, [AcquireLeases]
    collects that failure, calls [ReleaseLeases] on every member of the set
    (also those whose acquisition succeeded), returns the fleet error, and
    leaves no member holding a lease: each one's nonce is empty, its
    expiration zero, and [HasLease] is false. *)
Theorem AcquireLeases_all_or_nothing (c : Ctx) (s : St) (ms : list nat) (d : Z)
  (results : list (option Err)) (s1 : St) :
  Forall (fun h => h < length (st_heap s))%nat ms ->
  mapM (fun h => lm_AcquireLease h d) ms c s = (Done results, s1) ->
  Exists (fun r => r <> None) results ->
  exists s2 r s3 s',
    collectErrors (fun _ => true) "failed to acquire lease" results false c s1 = (Done true, s2) /\
    ms_ReleaseLeases ms c s2 = (Done r, s3) /\
    ms_AcquireLeases ms d c s = (Done (Some (EMsg "error acquiring leases on all machines")), s') /\
    st_heap s' = st_heap s3 /\
    Forall (fun h => cleared s' h /\ forall c', fst (lm_HasLease h c' s') = Done false) ms.
Proof.
  intros Hms Eacq Hex.
  assert (Hlen1 : length (st_heap s) = length (st_heap s1)).
  { assert (P : Preserves R_len (mapM (fun h => lm_AcquireLease h d) ms)).
    { apply pres_mapM; [exact _|]. apply Forall_forall. intros h _.
      apply pres_AcquireLease; [exact _|apply (HandleOK_NoHandleOK _ h), R_len_HandleOK|apply R_len_HandleOK]. }
    specialize (P c s).
    rewrite Eacq in P. exact P. }
  destruct (collectErrors_eval (fun _ => true) "failed to acquire lease" results false c s1)
    as (s2 & E2 & Hh2).
  assert (Hb : existsb (fun r => match r with Some _ => true | None => false end) results = true).
  { apply existsb_exists. apply Exists_exists in Hex as ([e|] & Hin & Hne); [|congruence].
    exists (Some e). split; [apply list_elem_of_In, Hin|reflexivity]. }
  rewrite Hb in E2. cbn [orb] in E2.
  destruct (ReleaseLeases_clears c ms s2) as (r & s3 & E3 & _ & Hall).
  { rewrite Hh2, <- Hlen1. exact Hms. }
  exists s2, r, s3.
  unfold ms_AcquireLeases. unfold bindM at 1. rewrite Eacq. cbv beta iota.
  unfold bindM at 1. rewrite E2. cbv beta iota.
  unfold bindM at 1. rewrite E3. cbv beta iota.
  assert (Hfin : forall s', st_heap s' = st_heap s3 ->
            Forall (fun h => cleared s' h /\ forall c', fst (lm_HasLease h c' s') = Done false) ms).
  { intros s' Hs'. eapply Forall_impl; [exact Hall|]. intros h Hc.
    assert (Hc' : cleared s' h) by (eapply cleared_heap; [exact Hs'|exact Hc]).
    split; [exact Hc'|]. intros c'. apply cleared_HasLease, Hc'. }
  destruct r as [e|]; cbn.
  - eexists. split; [reflexivity|]. split; [reflexivity|]. split; [reflexivity|].
    split; [reflexivity|]. apply Hfin. reflexivity.
  - eexists. split; [reflexivity|]. split; [reflexivity|]. split; [reflexivity|].
    split; [reflexivity|]. apply Hfin. reflexivity.
Qed.

(** ** The update loop *)

(** C4: when [Update] of a machine of the fleet returns an error, the
    "immediate" strategy logs it and goes on with the next machines (no wait
    on the failed one), and any other strategy returns that error at once,
    in the state [Update] left: no later machine is touched. *)
Theorem updateLoop_update_error (c : Ctx) (s : St) (h : nat) (rest : list nat)
  (lm : leasableMachine) (li : LaunchMachineInput) (e : Err) (s1 : St) :
  st_heap s !! h = Some lm ->
  resolveUpdatedMachineConfig (c_md c) MachineProcessGroupApp (Some (lm_machine lm)) = Some li ->
  lm_Update h li c s = (Done (Some e), s1) ->
  (md_strategy (c_md c) <> "immediate" -> updateLoop (h :: rest) c s = (Done (Some e), s1)) /\
  (md_strategy (c_md c) = "immediate" ->
     updateLoop (h :: rest) c s = updateLoop rest c (add_event s1 (EvWarn "Continuing after error"))).
Proof.
  intros Hl Hres Hu.
  assert (E : updateLoop (h :: rest) c s =
    if negb (String.eqb (md_strategy (c_md c)) "immediate") then (Done (Some e), s1)
    else (_ <- warn "Continuing after error" ;; afterUpdate (c_md c) h (updateLoop rest)) c s1).
  { cbn [updateLoop].
    unfold bindM at 1. change (askMd c s) with (Done (c_md c), s). cbv beta iota.
    unfold bindM at 1. unfold load at 1. rewrite Hl. cbv beta iota.
    rewrite Hres. unfold bindM at 1. rewrite Hu. cbv beta iota.
    destruct (negb _); reflexivity. }
  rewrite E. split.
  - intros Hne. apply String.eqb_neq in Hne. rewrite Hne. reflexivity.
  - intros Heq. unfold afterUpdate, bindM, warn, emit. rewrite Heq. reflexivity.
Qed.

(** ** Machine configuration *)

(** C9: in restart-only mode the resolved configuration is the machine's own
    configuration with only its metadata replaced (by the refreshed default
    metadata, merged with itself through the shared map); image, init command,
    checks, services, metrics, environment, mounts, guest and restart policy
    are those of the original, and so are the machine id and region. *)
Theorem resolve_restartOnly_keeps_config (md : machineDeployment) (pg : string)
  (orig : Machine) (li : LaunchMachineInput) :
  md_restartOnly md = true ->
  resolveUpdatedMachineConfig md pg (Some orig) = Some li ->
  let meta := defaultMachineMetadata md pg in
  li_Config li = set_Metadata (m_Config orig) (copyUserMetadata meta meta) /\
  li_ID li = m_ID orig /\ li_Region li = m_Region orig /\
  mc_Image (li_Config li) = mc_Image (m_Config orig) /\
  mc_Init_Cmd (li_Config li) = mc_Init_Cmd (m_Config orig) /\
  mc_Checks (li_Config li) = mc_Checks (m_Config orig) /\
  mc_Services (li_Config li) = mc_Services (m_Config orig) /\
  mc_Metrics (li_Config li) = mc_Metrics (m_Config orig) /\
  mc_Env (li_Config li) = mc_Env (m_Config orig) /\
  mc_Mounts (li_Config li) = mc_Mounts (m_Config orig) /\
  mc_Guest (li_Config li) = mc_Guest (m_Config orig) /\
  mc_Restart (li_Config li) = mc_Restart (m_Config orig).
Proof.
  intros Hr E meta. unfold resolveUpdatedMachineConfig in E. rewrite Hr in E.
  injection E as <-. cbn. repeat split.
Qed.

(** ** The release command phase *)

Lemma bind_Done_inv {A B} (m : M A) (k : A -> M B) (c : Ctx) (s : St) (b : B) (s' : St) :
  bindM m k c s = (Done b, s') -> exists a s1, m c s = (Done a, s1) /\ k a c s1 = (Done b, s').
Proof.
  unfold bindM. destruct (m c s) as [[a| |] s1]; intros E; [|discriminate|discriminate].
  exists a, s1. split; [reflexivity|exact E].
Qed.

Section AppFrame.
Context (P : nat -> Prop).

#[local] Instance R_app_PreOrder : PreOrder (R_app P).
Proof.
  split.
  - intros s Hi. split; [exact Hi|]. split; [reflexivity|]. split; [reflexivity|].
    exists []. rewrite app_nil_r. split; [reflexivity|constructor].
  - intros s1 s2 s3 H12 H23 Hi1.
    destruct (H12 Hi1) as [Hi2 (Hm12 & Hh12 & n12 & Ht12 & Hf12)].
    destruct (H23 Hi2) as [Hi3 (Hm23 & Hh23 & n23 & Ht23 & Hf23)].
    split; [exact Hi3|]. split; [congruence|]. split.
    + intros h Hp. rewrite Hh23, Hh12 by exact Hp. reflexivity.
    + exists (n12 ++ n23). rewrite Ht23, Ht12, app_assoc. split; [reflexivity|].
      apply Forall_app. split; assumption.
Qed.

Lemma R_app_event (s : St) ev :
  (forall h, ev_handle ev = Some h -> P h) -> R_app P s (add_event s ev).
Proof.
  intros Hev Hi. split; [exact Hi|]. split; [reflexivity|]. split; [reflexivity|].
  exists [ev]. split; [reflexivity|]. constructor; [exact Hev|constructor].
Qed.

Lemma R_app_NoHandleOK : NoHandleOK (R_app P).
Proof.
  split.
  - intros s Hi. split; [exact Hi|]. split; [reflexivity|]. split; [reflexivity|].
    exists []. rewrite app_nil_r. split; [reflexivity|constructor].
  - intros s ev He. apply R_app_event. intros h. rewrite He. discriminate.
Qed.

Lemma R_app_HandleOK (h : nat) : P h -> HandleOK (R_app P) h.
Proof.
  intros Hp. split; [|split].
  - apply R_app_NoHandleOK.
  - intros s ev He. apply R_app_event. intros h' Eh. destruct He as [He|He]; congruence.
  - intros s lm [Hl Hr]. split.
    + split; [|exact Hr]. intros h' Hh'. apply Hl. cbn in Hh'. rewrite length_insert in Hh'. exact Hh'.
    + split; [reflexivity|]. split.
      * intros h' Hp'. cbn. rewrite list_lookup_insert_ne; [reflexivity|]. intros ->. exact (Hp' Hp).
      * exists []. rewrite app_nil_r. split; [reflexivity|constructor].
Qed.

Lemma pres_newReleaseCommandMachineSet (m : Machine) :
  Preserves (R_app P) (newReleaseCommandMachineSet m).
Proof.
  intros c [hp ms rel n tr] [Hl Hr]. unfold newReleaseCommandMachineSet, set_rel, set_heap, rel_inv, app_frame.
  cbn in Hl, Hr |- *. split.
  - split.
    + intros h Hh. apply Hl. rewrite length_app in Hh. cbn [length] in Hh. lia.
    + constructor; [apply Hl; lia|constructor].
  - split; [reflexivity|]. split.
    + intros h Hp. apply lookup_app_l. destruct (decide (h < length hp))%nat as [Hlt|Hge];
        [exact Hlt|exfalso; apply Hp, Hl; lia].
    + exists []. rewrite app_nil_r. split; [reflexivity|constructor].
Qed.

Lemma pres_getReleaseCommandMachine_bind {A} (k : list nat -> M A) :
  (forall rel, Forall P rel -> Preserves (R_app P) (k rel)) ->
  Preserves (R_app P) (bindM getReleaseCommandMachine k).
Proof.
  intros Hk c s Hi. unfold bindM, getReleaseCommandMachine.
  apply (Hk _ (proj2 Hi) c s Hi).
Qed.

Ltac rel_step :=
  first [ match goal with
          | |- Preserves _ (bindM getReleaseCommandMachine _) =>
              apply pres_getReleaseCommandMachine_bind; intros ?rel ?Hrel
          end
        | pres_step
        | apply pres_newReleaseCommandMachineSet
        | apply (pres_Launch _ R_app_NoHandleOK)
        | apply (pres_warn' _ R_app_NoHandleOK)
        | apply (pres_ReleaseLeases _ R_app_NoHandleOK); eapply Forall_impl; [eassumption|];
          intros ? ?; apply R_app_HandleOK; assumption
        | apply (pres_AcquireLeases _ R_app_NoHandleOK); eapply Forall_impl; [eassumption|];
          intros ? ?; apply R_app_HandleOK; assumption ].

Ltac hnd_args Hh := first [exact Hh | exact R_app_NoHandleOK | typeclasses eauto].

Ltac rel_handle :=
  match goal with
  | H : Forall P (?h :: _) |- _ =>
      let Hh := fresh "Hh" in
      assert (Hh : HandleOK (R_app P) h) by (apply R_app_HandleOK; inversion H; assumption);
      first [ solve [eapply pres_WaitForState; hnd_args Hh]
            | solve [eapply pres_WaitForEventTypeAfterType; hnd_args Hh]
            | solve [eapply pres_machineID; hnd_args Hh]
            | solve [eapply pres_Update; hnd_args Hh]
            | apply (pres_load (R_app P) h) ]
  end.

Lemma pres_runReleaseCommand : Preserves (R_app P) runReleaseCommand.
Proof.
  unfold runReleaseCommand, createOrUpdateReleaseCmdMachine, createReleaseCommandMachine,
    updateReleaseCommandMachine.
  repeat (rel_step || rel_handle).
Qed.
End AppFrame.

(** The only [EReleaseExit] answer of [runReleaseCommand] is the one for a
    non-zero exit code. *)
Lemma runReleaseCommand_exit_nonzero (c : Ctx) (s s1 : St) (id : string) (code : Z) :
  runReleaseCommand c s = (Done (Some (EReleaseExit id code)), s1) -> code <> 0.
Proof.
  unfold runReleaseCommand. intros H.
  repeat match type of H with
    | bindM _ _ _ _ = _ => apply bind_Done_inv in H as (? & ? & _ & H); cbv beta in H
    | (if ?b then _ else _) _ _ = _ => destruct b eqn:?
    | (match ?x with _ => _ end) _ _ = _ => destruct x
    | retM _ _ _ = _ => injection H; clear H; intros; subst
    | panic _ _ = _ => discriminate H
    end; try discriminate.
  match goal with E : negb (_ =? 0) = true |- _ => apply negb_true_iff, Z.eqb_neq in E; exact E end.
Qed.

(** C1: when the release command's machine exits with a non-zero code,
    [DeployMachinesApp] returns the wrapped error in the state the release
    phase left: the app machine set is the same, no app machine's lease or
    snapshot changed, and no flaps call (lease, update, wait or get) was
    made for any app machine; only the release-command machine was touched.
    The release-command machine is assumed not to be one of the app machines,
    and the app handles to be allocated. *)
Theorem release_failure_aborts (c : Ctx) (s s1 : St) (id : string) (code : Z) :
  Forall (fun h => h < length (st_heap s))%nat (st_machineSet s) ->
  Forall (fun h => h ∉ st_machineSet s) (st_releaseCommandMachine s) ->
  runReleaseCommand c s = (Done (Some (EReleaseExit id code)), s1) ->
  code <> 0 /\
  DeployMachinesApp c s =
    (Done (Some (EWrap "release command failed - aborting deployment." (EReleaseExit id code))), s1) /\
  st_machineSet s1 = st_machineSet s /\
  (forall h, h ∈ st_machineSet s -> st_heap s1 !! h = st_heap s !! h) /\
  exists new, st_trace s1 = st_trace s ++ new /\
    Forall (fun ev => forall h, ev_handle ev = Some h -> h ∉ st_machineSet s) new.
Proof.
  intros Happ Hrel E.
  set (P := fun h => h ∉ st_machineSet s).
  assert (Hi : rel_inv P s).
  { split; [|exact Hrel]. intros h Hh Hin. rewrite Forall_forall in Happ.
    specialize (Happ h Hin). lia. }
  pose proof (pres_runReleaseCommand P c s Hi) as [_ (Hm & Hh & new & Ht & Hf)].
  rewrite E in Hm, Hh, Ht. cbn [snd] in Hm, Hh, Ht.
  split; [eapply runReleaseCommand_exit_nonzero; exact E|].
  split.
  { unfold DeployMachinesApp, bindM at 1. rewrite E. reflexivity. }
  split; [exact Hm|]. split.
  - intros h Hin. apply Hh. intros Hp. exact (Hp Hin).
  - exists new. split; [exact Ht|exact Hf].
Qed.

(** C5 (divergence): with a release command configured, restart-only mode off
    and no release-command machine yet, [runReleaseCommand] returns nil at its
    first check and changes nothing, so no release-command machine is created;
    and [createReleaseCommandMachine], were it reached, would dereference the
    nil machine it passes to [resolveUpdatedMachineConfig] and panic before
    any launch. *)
Theorem release_command_machine_never_created (c : Ctx) (s : St) :
  md_releaseCommand (c_md c) <> "" ->
  md_restartOnly (c_md c) = false ->
  st_releaseCommandMachine s = [] ->
  runReleaseCommand c s = (Done None, s) /\ createReleaseCommandMachine c s = (Panic, s).
Proof.
  intros Hrc Hro Hrel. apply String.eqb_neq in Hrc. split.
  - unfold runReleaseCommand, bindM, askMd, getReleaseCommandMachine. rewrite Hrc, Hrel, Hro.
    reflexivity.
  - unfold createReleaseCommandMachine, bindM, askMd, getReleaseCommandMachine. rewrite Hrc, Hrel.
    reflexivity.
Qed.

(** C6 (divergence): [createOneMachine] resolves its configuration from a nil
    machine, which panics before the launch call, whatever the deployment;
    so a deployment whose app machine set is empty after the release phase
    ends in that panic, with no machine launched and nothing waited on. *)
Theorem empty_fleet_create_panics (c : Ctx) (s s1 : St) :
  (forall c' s', createOneMachine c' s' = (Panic, s')) /\
  (runReleaseCommand c s = (Done None, s1) -> st_machineSet s1 = [] ->
   DeployMachinesApp c s = (Panic, s1)).
Proof.
  assert (Hc : forall c' s', createOneMachine c' s' = (Panic, s')).
  { intros c' s'. reflexivity. }
  split; [exact Hc|].
  intros E Hms. unfold DeployMachinesApp. unfold bindM at 1. rewrite E.
  cbv beta iota. unfold bindM at 1. unfold getMachineSet at 1. rewrite Hms.
  apply Hc.
Qed.

(** ** Waiting for health checks *)

Lemma shortestInterval_bounds (checks : gmap string MachineCheck) :
  shortestInterval checks <= 120 * Second /\
  (forall k ch, checks !! k = Some ch -> shortestInterval checks <= chk_Interval ch).
Proof.
  unfold shortestInterval.
  apply (map_fold_weak_ind (fun r m => r <= 120 * Second /\
           forall k ch, m !! k = Some ch -> r <= chk_Interval ch)).
  - split; [lia|]. intros k ch Hk. rewrite lookup_empty in Hk. discriminate.
  - intros i x m r _ [Hr Hm]. split.
    + destruct (Z.ltb_spec (chk_Interval x) r); lia.
    + intros k ch Hk. destruct (decide (i = k)) as [<-|Hne].
      * rewrite lookup_insert_eq in Hk. injection Hk as <-.
        destruct (Z.ltb_spec (chk_Interval x) r); lia.
      * rewrite lookup_insert_ne in Hk by exact Hne. specialize (Hm k ch Hk).
        destruct (Z.ltb_spec (chk_Interval x) r); lia.
Qed.

Lemma healthchecks_loop_step (c : Ctx) (s : St) (h : nat) (lm : leasableMachine)
  (fuel : nat) (bmin bmax : Z) :
  st_heap s !! h = Some lm ->
  let id := m_ID (lm_machine lm) in
  let s1 := add_event (incr_step s) (EvGet h id) in
  healthchecks_loop (S fuel) h bmin bmax c s =
    match e_get (c_env c) (st_step s) id with
    | RErr err =>
        (Done (Some (if is_canceled err then err
                     else if is_deadline err
                     then EWrap ("timeout reached waiting for healthchecks to pass for machine "
                                 +:+ id) err
                     else EWrap ("error getting machine " +:+ id +:+ " from api") err)), s1)
    | ROk m =>
        if AllPassing (c_api c) m then (Done None, s1)
        else healthchecks_loop fuel h bmin bmax c (add_event s1 (EvSleep bmin bmax))
    end.
Proof.
  intros Hl id s1. subst id s1. destruct s as [hp ms rel n tr]; cbn in Hl |- *.
  cbn [healthchecks_loop]. run_prims. rewrite Hl. run_prims.
  destruct (e_get _ _ _) as [m|err].
  - destruct (AllPassing _ m); reflexivity.
  - destruct (is_canceled err); [reflexivity|]. destruct (is_deadline err); reflexivity.
Qed.

(** C8 (amended): [WaitForHealthchecksToPass] returns nil at once, with no
    call, when the machine has no checks map.  Otherwise it polls [Get] with
    a backoff between half and twice the shortest check interval (the
    shortest interval is at most 120s and at most every check's interval).
    Each poll that sees all checks passing returns nil; one that sees a
    failing check sleeps and polls again; and any [Get] error ends the wait
    at once: a cancellation is returned as is, a deadline as a timeout error,
    and every other error, transient or not, as "error getting machine ...
    from api", with no retry. *)
Theorem WaitForHealthchecksToPass_polls (c : Ctx) (s : St) (h : nat) (lm : leasableMachine)
  (timeout : Z) :
  st_heap s !! h = Some lm ->
  (mc_Checks (m_Config (lm_machine lm)) = None ->
     lm_WaitForHealthchecksToPass h timeout c s = (Done None, s)) /\
  (forall checks, mc_Checks (m_Config (lm_machine lm)) = Some checks ->
     let si := shortestInterval checks in
     si <= 120 * Second /\ (forall k ch, checks !! k = Some ch -> si <= chk_Interval ch) /\
     lm_WaitForHealthchecksToPass h timeout c s =
       healthchecks_loop (e_fuel (c_env c)) h (Z.quot si 2) (2 * si) c s) /\
  (forall fuel bmin bmax s', st_heap s' !! h = Some lm ->
     let id := m_ID (lm_machine lm) in
     let s1 := add_event (incr_step s') (EvGet h id) in
     healthchecks_loop (S fuel) h bmin bmax c s' =
       match e_get (c_env c) (st_step s') id with
       | RErr err =>
           (Done (Some (if is_canceled err then err
                        else if is_deadline err
                        then EWrap ("timeout reached waiting for healthchecks to pass for machine "
                                    +:+ id) err
                        else EWrap ("error getting machine " +:+ id +:+ " from api") err)), s1)
       | ROk m =>
           if AllPassing (c_api c) m then (Done None, s1)
           else healthchecks_loop fuel h bmin bmax c (add_event s1 (EvSleep bmin bmax))
       end).
Proof.
  intros Hl. split; [|split].
  - intros Hc. unfold lm_WaitForHealthchecksToPass, bindM, load. rewrite Hl, Hc. reflexivity.
  - intros checks Hc si. subst si. destruct (shortestInterval_bounds checks) as [H1 H2].
    split; [exact H1|]. split; [exact H2|].
    unfold lm_WaitForHealthchecksToPass, bindM, load. rewrite Hl, Hc. reflexivity.
  - intros fuel bmin bmax s' Hl'. apply healthchecks_loop_step, Hl'.
Qed.

(** ** Further properties of the deployment code *)

Lemma AcquireLease_eval (c : Ctx) (s : St) (h : nat) (lm : leasableMachine) (d : Z) :
  st_heap s !! h = Some lm ->
  let id := m_ID (lm_machine lm) in
  let secs := Z.quot d Second in
  let s2 := add_event (incr_step (incr_step s)) (EvAcquireLease h id secs) in
  lm_AcquireLease h d c s =
    if leaseHeld lm (e_now (c_env c) (st_step s)) then (Done None, incr_step s)
    else
      match e_acquireLease (c_env c) (S (st_step s)) id secs with
      | RErr err => (Done (Some err), s2)
      | ROk lease =>
          if negb (String.eqb (lease_Status lease) "success")
          then (Done (Some (EMsg ("did not acquire lease for machine " +:+ id))), s2)
          else match lease_Data lease with
               | None => (Done (Some (EMsg ("missing data from lease response for machine " +:+ id))), s2)
               | Some dt =>
                   (Done None, set_heap s2 (<[h := set_lease lm (ld_Nonce dt) (time_Unix (ld_ExpiresAt dt))]> (st_heap s2)))
               end
      end.
Proof.
  intros Hl id secs s2. subst id secs s2.
  destruct s as [hp ms rel n tr]; cbn in Hl |- *.
  unfold lm_AcquireLease. run_prims. rewrite (HasLease_eval c _ h lm) by exact Hl. run_prims.
  destruct (leaseHeld lm _); [reflexivity|].
  run_prims. rewrite Hl. run_prims.
  destruct (e_acquireLease _ _ _ _) as [lease|err]; [|reflexivity].
  destruct (negb _); [reflexivity|].
  destruct (lease_Data lease) as [dt|]; [|reflexivity].
  unfold store. run_prims.
  rewrite decide_True by (eapply lookup_lt; exact Hl).
  reflexivity.
Qed.

(** [AcquireLease] on a machine whose lease is still held (non-empty nonce,
    expiry after the current time) returns success without calling flaps:
    the trace and the heap are unchanged. *)
Theorem AcquireLease_held_noop (c : Ctx) (s : St) (h : nat) (lm : leasableMachine) (d : Z) :
  st_heap s !! h = Some lm ->
  leaseHeld lm (e_now (c_env c) (st_step s)) = true ->
  exists s', lm_AcquireLease h d c s = (Done None, s') /\
    st_trace s' = st_trace s /\ st_heap s' = st_heap s.
Proof.
  intros Hl Hh. rewrite (AcquireLease_eval c s h lm d Hl). rewrite Hh.
  eexists. split; [reflexivity|]. split; reflexivity.
Qed.

(** [AcquireLease] on a machine without a held lease makes exactly one
    flaps [AcquireLease] call, for [duration] in whole seconds.  Only a
    "success" answer that carries lease data is stored (its nonce and its
    expiry); a flaps error is returned as is, and a non-success status or a
    missing data field is an error that leaves the heap unchanged. *)
Theorem AcquireLease_stores_granted_lease (c : Ctx) (s : St) (h : nat) (lm : leasableMachine)
  (d : Z) :
  st_heap s !! h = Some lm ->
  leaseHeld lm (e_now (c_env c) (st_step s)) = false ->
  let id := m_ID (lm_machine lm) in
  let secs := Z.quot d Second in
  exists r s', lm_AcquireLease h d c s = (Done r, s') /\
    st_trace s' = st_trace s ++ [EvAcquireLease h id secs] /\
    match e_acquireLease (c_env c) (S (st_step s)) id secs with
    | ROk lease =>
        match lease_Data lease with
        | Some dt =>
            if String.eqb (lease_Status lease) "success"
            then r = None /\
                 st_heap s' = <[h := set_lease lm (ld_Nonce dt) (time_Unix (ld_ExpiresAt dt))]> (st_heap s)
            else r <> None /\ st_heap s' = st_heap s
        | None => r <> None /\ st_heap s' = st_heap s
        end
    | RErr err => r = Some err /\ st_heap s' = st_heap s
    end.
Proof.
  intros Hl Hh id secs. rewrite (AcquireLease_eval c s h lm d Hl). rewrite Hh. subst id secs.
  destruct (e_acquireLease _ _ _ _) as [lease|err].
  - destruct (String.eqb (lease_Status lease) "success") eqn:Es; cbn [negb];
      destruct (lease_Data lease) as [dt|];
      do 2 eexists; (split; [reflexivity|]); (split; [reflexivity|]); cbn; (split; [congruence|reflexivity]).
  - do 2 eexists; split; [reflexivity|]. split; [reflexivity|]. split; reflexivity.
Qed.



Lemma existsb_release_errors (b : bool) (rs : list (option Err)) :
  existsb (fun r => match r with
                    | Some e => negb b || negb (is_deadline e || is_canceled e)
                    | None => false end) rs = false <->
  Forall (fun res => match res with
                     | None => True
                     | Some e => b = true /\ (is_deadline e || is_canceled e) = true
                     end) rs.
Proof.
  induction rs as [|[e|] rest IH]; cbn [existsb].
  - split; [constructor|reflexivity].
  - rewrite orb_false_iff, IH, Forall_cons.
    destruct b, (is_deadline e || is_canceled e); cbn; intuition congruence.
  - rewrite IH, Forall_cons. intuition.
Qed.

(** [ReleaseLeases] reports success exactly when every member's
    [ReleaseLease] either succeeded or failed with a deadline or cancellation
    error while the context had already been canceled before the call. *)
Theorem ReleaseLeases_result (c : Ctx) (s : St) (ms : list nat) (rs : list (option Err)) (s1 : St) :
  mapM lm_ReleaseLease ms c (incr_step s) = (Done rs, s1) ->
  let contextWasAlreadyCanceled := e_ctxCanceled (c_env c) (st_step s) in
  exists r s', ms_ReleaseLeases ms c s = (Done r, s') /\ st_heap s' = st_heap s1 /\
    (r = None <->
     Forall (fun res => match res with
                        | None => True
                        | Some e => contextWasAlreadyCanceled = true /\ (is_deadline e || is_canceled e) = true
                        end) rs).
Proof.
  intros E1 cwc. unfold ms_ReleaseLeases. unfold bindM at 1.
  change (ctxCanceled c s) with (Done (e_ctxCanceled (c_env c) (st_step s)), incr_step s).
  cbv beta iota. unfold bindM at 1. rewrite E1. cbv beta iota.
  match goal with |- context [collectErrors ?k ?m rs false] =>
    destruct (collectErrors_eval k m rs false c s1) as (s2 & E2 & Hh2) end.
  unfold bindM at 1. rewrite E2. cbv beta iota. cbn [orb].
  subst cwc. pose proof (existsb_release_errors (e_ctxCanceled (c_env c) (st_step s)) rs) as Hx.
  destruct (existsb _ rs); do 2 eexists; (split; [reflexivity|]); (split; [exact Hh2|]);
    rewrite <- Hx; split; congruence.
Qed.

Section UpdateLoop.
Context (R : relation St) `{!PreOrder R} (Hall : forall h, HandleOK R h).

Lemma pres_afterUpdate (md : machineDeployment) (h : nat) (k : M (option Err)) :
  Preserves R k -> Preserves R (afterUpdate md h k).
Proof.
  intros Hk. pose proof (HandleOK_NoHandleOK R h (Hall h)) as Hn. unfold afterUpdate.
  repeat (pres_step || exact Hk || apply (pres_WaitForState R Hn h (Hall h))
          || apply (pres_WaitForHealthchecksToPass R Hn h (Hall h))).
Qed.

Lemma pres_updateLoop (machines : list nat) : Preserves R (updateLoop machines).
Proof.
  pose proof (HandleOK_NoHandleOK R 0 (Hall 0)) as Hn.
  induction machines as [|h rest IH]; cbn [updateLoop];
    repeat (pres_step || apply (pres_Update R Hn h (Hall h)) || apply (pres_warn' R Hn)
            || (apply pres_afterUpdate; exact IH)).
Qed.
End UpdateLoop.

#[export] Instance R_set_PreOrder : PreOrder R_set.
Proof.
  split; [intros s; split; reflexivity|].
  intros s1 s2 s3 [E1 L1] [E2 L2]. split; congruence.
Qed.

Lemma R_set_HandleOK (h : nat) : HandleOK R_set h.
Proof.
  split; [|split].
  - intros s. split; reflexivity.
  - intros s ev _. split; reflexivity.
  - intros s lm. split; [reflexivity|]. cbn. apply length_insert.
Qed.

(** When the app's machines are valid handles whose lease state is clear
    and none of them is the release command machine, then whatever
    [DeployMachinesApp] returns (an error of the release phase, of the lease
    phase or of an update, or success), every machine of the app's set has
    its local lease state cleared at the end, so [HasLease] is false for it. *)
Theorem DeployMachinesApp_releases_leases (c : Ctx) (s s' : St) (r : option Err) :
  Forall (fun h => h < length (st_heap s))%nat (st_machineSet s) ->
  Forall (fun h => h ∉ st_machineSet s) (st_releaseCommandMachine s) ->
  Forall (cleared s) (st_machineSet s) ->
  DeployMachinesApp c s = (Done r, s') ->
  Forall (fun h => cleared s' h /\ forall c', fst (lm_HasLease h c' s') = Done false)
    (st_machineSet s).
Proof.
  intros Happ Hrel Hcl E.
  assert (Hfin : forall s2, Forall (cleared s2) (st_machineSet s) ->
            Forall (fun h => cleared s2 h /\ forall c', fst (lm_HasLease h c' s2) = Done false)
              (st_machineSet s)).
  { intros s2 H. eapply Forall_impl; [exact H|]. intros h Hc. split; [exact Hc|].
    intros c'. apply cleared_HasLease, Hc. }
  apply Hfin.
  set (P := fun h => h ∉ st_machineSet s).
  assert (Hi : rel_inv P s).
  { split; [|exact Hrel]. intros h Hh Hin. rewrite Forall_forall in Happ.
    specialize (Happ h Hin). lia. }
  unfold DeployMachinesApp in E. apply bind_Done_inv in E as (err & s1 & E1 & E).
  pose proof (pres_runReleaseCommand P c s Hi) as [_ (Hm & Hh & _)].
  rewrite E1 in Hm, Hh. cbn [snd] in Hm, Hh.
  assert (Hh1 : forall h, h ∈ st_machineSet s -> st_heap s1 !! h = st_heap s !! h).
  { intros h Hin. apply Hh. intros Hp. exact (Hp Hin). }
  assert (Hcl1 : Forall (cleared s1) (st_machineSet s)).
  { apply Forall_forall. intros h Hin. rewrite Forall_forall in Hcl.
    destruct (Hcl h Hin) as (lm & Hl & Hn & He). exists lm.
    split; [|split; assumption]. rewrite Hh1 by exact Hin. exact Hl. }
  assert (Happ1 : Forall (fun h => h < length (st_heap s1))%nat (st_machineSet s)).
  { apply Forall_forall. intros h Hin. rewrite Forall_forall in Hcl.
    destruct (Hcl h Hin) as (lm & Hl & _). eapply lookup_lt. rewrite Hh1 by exact Hin. exact Hl. }
  destruct err as [e|].
  { injection E as _ <-. exact Hcl1. }
  unfold bindM at 1, getMachineSet at 1 in E. cbv beta in E. rewrite Hm in E.
  destruct (st_machineSet s) as [|h0 rest] eqn:Ems; [constructor|].
  cbn [isEmpty] in E.
  apply bind_Done_inv in E as (md & s1' & Emd & E). injection Emd as <- <-.
  apply bind_Done_inv in E as (err & s2 & E2 & E).
  assert (R2 : R_set s1 s2).
  { pose proof (pres_AcquireLeases R_set (HandleOK_NoHandleOK R_set 0 (R_set_HandleOK 0))
                  (h0 :: rest) (md_leaseTimeout (c_md c))) as HP.
    assert (Hok : Forall (HandleOK R_set) (h0 :: rest))
      by (apply Forall_forall; intros h _; apply R_set_HandleOK).
    specialize (HP Hok c s1).
    rewrite E2 in HP. exact HP. }
  unfold withDefer in E.
  match type of E with
  | (match ?b c s2 with _ => _ end) = _ =>
      assert (Pb : Preserves R_set b) by
        (repeat (pres_step || apply (pres_updateLoop R_set R_set_HandleOK)));
      specialize (Pb c s2); destruct (b c s2) as [[a| |] s3] eqn:Eb
  end; cbn [snd] in Pb.
  2: { match type of E with (match ?x with _ => _ end) = _ => destruct x as [[] ?] end; discriminate. }
  2: discriminate.
  match type of E with
  | (let (_, _) := ?cl c s3 in _) = _ => destruct (cl c s3) as [[u| |] s5] eqn:Ecl
  end; [|discriminate|discriminate].
  injection E as _ <-. rename Ecl into E.
  apply bind_Done_inv in E as (ms3 & s3' & Ems3 & E). injection Ems3 as <- <-.
  apply bind_Done_inv in E as (r3 & s4 & E4 & E).
  assert (Hms3 : st_machineSet s3 = h0 :: rest).
  { destruct Pb as [Pm _]. destruct R2 as [R2m _]. rewrite Pm, R2m, Hm. reflexivity. }
  rewrite Hms3 in E4.
  destruct (ReleaseLeases_clears c (h0 :: rest) s3) as (r4 & s4' & E4' & _ & Hall).
  { destruct Pb as [_ Pl]. destruct R2 as [_ R2l].
    eapply Forall_impl; [exact Happ1|]. intros h Hlt. cbv beta in Hlt. lia. }
  rewrite E4 in E4'. injection E4' as <- <-.
  assert (Hs' : st_heap s5 = st_heap s4).
  { destruct r3; [unfold warn, emit in E|unfold retM in E]; injection E as _ <-; reflexivity. }
  eapply Forall_impl; [exact Hall|]. intros h. apply cleared_heap, Hs'.
Qed.

Lemma strings_Split_cons (s : string) (sep : ascii) :
  exists p ps, strings_Split s sep = p :: ps.
Proof.
  destruct s as [|c rest]; cbn [strings_Split]; [eauto|].
  destruct (Ascii.eqb c sep); [eauto|].
  destruct (strings_Split rest sep); eauto.
Qed.

Lemma strings_Split_join (s : string) (sep : ascii) :
  String.concat (String sep EmptyString) (strings_Split s sep) = s /\
  Forall (fun p => forall n, String.get n p <> Some sep) (strings_Split s sep).
Proof.
  induction s as [|c rest [IHj IHf]]; cbn [strings_Split].
  - split; [reflexivity|]. constructor; [|constructor]. intros n. destruct n; discriminate.
  - destruct (Ascii.eqb c sep) eqn:Ec.
    + apply Ascii.eqb_eq in Ec as ->.
      destruct (strings_Split_cons rest sep) as (p & ps & Ep). rewrite Ep in IHj, IHf |- *.
      split.
      * transitivity ("" +:+ String sep "" +:+ String.concat (String sep "") (p :: ps))%string;
          [reflexivity|]. rewrite IHj. reflexivity.
      * constructor; [|exact IHf]. intros n. destruct n; discriminate.
    + destruct (strings_Split_cons rest sep) as (p & ps & Ep). rewrite Ep in IHj, IHf |- *.
      inversion IHf as [|? ? Hp Hps].
      split.
      * transitivity (String c (String.concat (String sep "") (p :: ps)));
          [destruct ps; reflexivity|]. rewrite IHj. reflexivity.
      * constructor; [|exact Hps]. intros [|n]; cbn.
        -- intros [= E]. rewrite E, Ascii.eqb_refl in Ec. discriminate.
        -- apply Hp.
Qed.

(** [configureLaunchInputForReleaseCommand] sets the init command to the
    release command split on spaces, removes services and checks, sets the
    restart policy to "no", moves the machine to the app's primary region
    when one is set, and sets [RELEASE_COMMAND=1] unless the variable is
    already present; the id, image, metadata, mounts and the other variables
    are kept. *)
Theorem configureLaunchInputForReleaseCommand_spec (md : machineDeployment) (li : LaunchMachineInput) :
  let li' := configureLaunchInputForReleaseCommand md li in
  let env := mc_Env (li_Config li) in
  mc_Env (li_Config li') !! "RELEASE_COMMAND" = Some (default "1" (env !! "RELEASE_COMMAND")) /\
  (forall k, k <> "RELEASE_COMMAND" -> mc_Env (li_Config li') !! k = env !! k) /\
  li_Region li' = (if String.eqb (md_primaryRegion md) "" then li_Region li else md_primaryRegion md) /\
  mc_Init_Cmd (li_Config li') = strings_Split (md_releaseCommand md) " " /\
  mc_Services (li_Config li') = [] /\ mc_Checks (li_Config li') = None /\
  mc_Restart (li_Config li') = {| rs_Policy := MachineRestartPolicyNo |} /\
  li_ID li' = li_ID li /\ mc_Image (li_Config li') = mc_Image (li_Config li) /\
  mc_Metadata (li_Config li') = mc_Metadata (li_Config li) /\
  mc_Mounts (li_Config li') = mc_Mounts (li_Config li).
Proof.
  intros li' env. subst li' env. unfold configureLaunchInputForReleaseCommand.
  destruct (String.eqb (md_primaryRegion md) "") eqn:Er; cbn [negb];
  match goal with |- context [match ?x with Some _ => _ | None => _ end] => destruct x eqn:Ek end;
  cbn in Ek |- *; rewrite ?Ek; cbn.
  all: repeat split; try reflexivity.
  all: try (intros k Hk; rewrite ?lookup_insert_ne by congruence; reflexivity).
  all: rewrite lookup_insert_eq; reflexivity.
Qed.

(** The init command of the release machine gives back the release
    command when its words are joined with single spaces, and no word
    contains a space. *)
Theorem configureLaunchInputForReleaseCommand_cmd_round_trip (md : machineDeployment)
  (li : LaunchMachineInput) :
  let cmd := mc_Init_Cmd (li_Config (configureLaunchInputForReleaseCommand md li)) in
  String.concat " "%string cmd = md_releaseCommand md /\
  Forall (fun w => forall n, String.get n w <> Some " "%char) cmd.
Proof.
  intros cmd. subst cmd. unfold configureLaunchInputForReleaseCommand.
  destruct (negb (String.eqb (md_primaryRegion md) "")); cbn;
    match goal with |- context [match ?x with Some _ => _ | None => _ end] => destruct x end;
    apply strings_Split_join.
Qed.

Lemma copyUserMetadata_lookup (src dst : gmap string string) (k : string) :
  copyUserMetadata src dst !! k =
    if isFlyAppsPlatformMetadata k then dst !! k
    else match src !! k with Some v => Some v | None => dst !! k end.
Proof.
  unfold copyUserMetadata. revert k.
  apply (map_fold_weak_ind (fun r m => forall k, r !! k =
           if isFlyAppsPlatformMetadata k then dst !! k
           else match m !! k with Some v => Some v | None => dst !! k end)).
  - intros k. rewrite lookup_empty. destruct (isFlyAppsPlatformMetadata k); reflexivity.
  - intros i x m r Hi IH k.
    destruct (decide (i = k)) as [<-|Hne].
    + rewrite lookup_insert_eq. destruct (isFlyAppsPlatformMetadata i) eqn:Ep.
      * rewrite IH, Ep. reflexivity.
      * rewrite lookup_insert_eq. reflexivity.
    + rewrite lookup_insert_ne by exact Hne.
      destruct (isFlyAppsPlatformMetadata i); [apply IH|].
      rewrite lookup_insert_ne by exact Hne. apply IH.
Qed.

Lemma defaultMachineMetadata_platform (md : machineDeployment) (pg k : string) :
  isFlyAppsPlatformMetadata k = false -> defaultMachineMetadata md pg !! k = None.
Proof.
  unfold isFlyAppsPlatformMetadata. intros Hk.
  repeat rewrite orb_false_iff in Hk.
  destruct Hk as [[[[H1 H2] H3] H4] H5]. apply String.eqb_neq in H1, H2, H3, H4, H5.
  unfold defaultMachineMetadata.
  destruct (md_isPostgresApp md); rewrite ?lookup_insert_ne by congruence; apply lookup_empty.
Qed.

Ltac resolve_cases :=
  repeat (match goal with |- context [match ?x with _ => _ end] => destruct x eqn:? end;
          cbn -[copyUserMetadata defaultMachineMetadata map_get] in *).

(** Outside restart-only mode, a platform metadata key of the resolved
    configuration has its default value, and every other key has the
    original machine's value (absent when the machine had none). *)
Theorem resolve_metadata_sources (md : machineDeployment) (pg : string) (orig : Machine)
  (li : LaunchMachineInput) :
  md_restartOnly md = false ->
  resolveUpdatedMachineConfig md pg (Some orig) = Some li ->
  forall k, mc_Metadata (li_Config li) !! k =
    if isFlyAppsPlatformMetadata k then defaultMachineMetadata md pg !! k
    else mc_Metadata (m_Config orig) !! k.
Proof.
  intros Hr E k. unfold resolveUpdatedMachineConfig in E. rewrite Hr in E.
  injection E as <-. cbn -[copyUserMetadata defaultMachineMetadata map_get].
  resolve_cases.
  all: try congruence.
  all: rewrite copyUserMetadata_lookup; destruct (isFlyAppsPlatformMetadata k) eqn:Ep; try congruence; try reflexivity;
  rewrite defaultMachineMetadata_platform by exact Ep;
  destruct (mc_Metadata (m_Config orig) !! k); reflexivity.
Qed.

(** In restart-only mode the resolved metadata is exactly the default
    metadata: the machine's own user metadata keys are dropped. *)
Theorem resolve_restartOnly_drops_user_metadata (md : machineDeployment) (pg : string)
  (orig : Machine) (li : LaunchMachineInput) :
  md_restartOnly md = true ->
  resolveUpdatedMachineConfig md pg (Some orig) = Some li ->
  mc_Metadata (li_Config li) = defaultMachineMetadata md pg /\
  forall k, isFlyAppsPlatformMetadata k = false -> mc_Metadata (li_Config li) !! k = None.
Proof.
  intros Hr E. unfold resolveUpdatedMachineConfig in E. rewrite Hr in E.
  injection E as <-. cbn -[copyUserMetadata defaultMachineMetadata].
  assert (Hm : copyUserMetadata (defaultMachineMetadata md pg) (defaultMachineMetadata md pg)
               = defaultMachineMetadata md pg).
  { apply map_eq. intros k. rewrite copyUserMetadata_lookup.
    destruct (isFlyAppsPlatformMetadata k); [reflexivity|].
    destruct (defaultMachineMetadata md pg !! k); reflexivity. }
  rewrite Hm. split; [reflexivity|]. apply defaultMachineMetadata_platform.
Qed.

(** Outside restart-only mode the resolved environment is the app's
    environment, except that [PRIMARY_REGION] keeps the original machine's
    value when the app's is empty. *)
Theorem resolve_primary_region (md : machineDeployment) (pg : string) (orig : Machine)
  (li : LaunchMachineInput) :
  md_restartOnly md = false ->
  resolveUpdatedMachineConfig md pg (Some orig) = Some li ->
  let appEnv := md_appEnv md in
  let origEnv := mc_Env (m_Config orig) in
  (forall k, k <> "PRIMARY_REGION" -> mc_Env (li_Config li) !! k = appEnv !! k) /\
  map_get (mc_Env (li_Config li)) "PRIMARY_REGION" =
    (if String.eqb (map_get appEnv "PRIMARY_REGION") "" then map_get origEnv "PRIMARY_REGION"
     else map_get appEnv "PRIMARY_REGION").
Proof.
  intros Hr E appEnv origEnv. subst appEnv origEnv.
  unfold resolveUpdatedMachineConfig in E. rewrite Hr in E. injection E as <-.
  assert (Henv : forall c, mc_Env (set_Guest c (mc_Guest c)) = mc_Env c) by reflexivity.
  cbn.
  destruct (mc_Mounts (m_Config orig)) as [|mt [|mt2 mts]];
  cbn; try (destruct (String.eqb (mnt_Path _) _));
  destruct (mc_Guest (m_Config orig)); cbn;
  (destruct (String.eqb (map_get (md_appEnv md) "PRIMARY_REGION") "") eqn:Ea,
           (String.eqb (map_get (mc_Env (m_Config orig)) "PRIMARY_REGION") "") eqn:Eo; cbn;
   [ split; [reflexivity|]; apply String.eqb_eq in Ea, Eo; rewrite Ea, Eo; reflexivity
   | split; [intros k Hk; apply lookup_insert_ne; congruence|];
     unfold map_get at 1; rewrite lookup_insert_eq; reflexivity
   | split; [reflexivity|reflexivity]
   | split; [reflexivity|reflexivity] ]).
Qed.

(** Outside restart-only mode the resolved configuration keeps the guest
    of the original machine and its mounts, except that a single mount is
    re-pointed to the [[mounts]] destination of fly.toml. *)
Theorem resolve_mounts_and_guest (md : machineDeployment) (pg : string) (orig : Machine)
  (li : LaunchMachineInput) :
  md_restartOnly md = false ->
  resolveUpdatedMachineConfig md pg (Some orig) = Some li ->
  mc_Guest (li_Config li) = mc_Guest (m_Config orig) /\
  match mc_Mounts (m_Config orig) with
  | [mt] => mc_Mounts (li_Config li) =
              [{| mnt_Volume := mnt_Volume mt; mnt_Path := md_volumeDestination md;
                  mnt_Name := mnt_Name mt |}]
  | mounts => mc_Mounts (li_Config li) = mounts
  end.
Proof.
  intros Hr E. unfold resolveUpdatedMachineConfig in E. rewrite Hr in E. injection E as <-.
  destruct (mc_Mounts (m_Config orig)) as [|mt [|mt2 mts]] eqn:Em;
  cbn; rewrite ?Em; cbn;
  try (destruct (String.eqb (mnt_Path mt) (md_volumeDestination md)) eqn:Ep);
  destruct (mc_Guest (m_Config orig)); cbn; (split; [reflexivity|]); try reflexivity;
  apply String.eqb_eq in Ep; destruct mt; cbn in *; subst; reflexivity.
Qed.

Lemma validateMachineMounts_None (volumeName : string) (m : Machine) :
  validateMachineMounts volumeName m = None <-> mounts_ok volumeName m.
Proof.
  unfold validateMachineMounts, mounts_ok.
  destruct (mc_Mounts (m_Config m)) as [|mt [|mt2 rest]]; cbn.
  - destruct (String.eqb volumeName "") eqn:E; split; try discriminate; try reflexivity.
    + intros (mt & H & _); discriminate.
  - destruct (String.eqb volumeName "") eqn:E.
    + split; discriminate.
    + destruct (String.eqb volumeName (mnt_Name mt)) eqn:E2; cbn.
      * apply String.eqb_eq in E2. split; [intros _; eauto|reflexivity].
      * split; [discriminate|]. intros (mt' & H & Hn). injection H as <-.
        subst. rewrite String.eqb_refl in E2. discriminate.
  - destruct (String.eqb volumeName ""); split; try discriminate.
    intros (mt' & H & _); discriminate.
Qed.

Lemma validateVolumeConfig_loop_eval (volumeName : string) (c : Ctx) (s : St) (ms : list nat) :
  Forall (fun h => h < length (st_heap s))%nat ms ->
  exists r, validateVolumeConfig_loop volumeName ms c s = (Done r, s) /\
    (r = None <-> Forall (fun h => forall lm, st_heap s !! h = Some lm -> mounts_ok volumeName (lm_machine lm)) ms) /\
    (forall e, r = Some e -> exists h lm, h ∈ ms /\ st_heap s !! h = Some lm /\
                 validateMachineMounts volumeName (lm_machine lm) = Some e).
Proof.
  induction ms as [|h rest IH]; intros Hlt.
  - exists None. split; [reflexivity|]. split; [split; constructor|]. discriminate.
  - inversion Hlt as [|? ? Hh Hrest]; subst.
    destruct (lookup_lt_is_Some_2 (st_heap s) h Hh) as [lm Hlm].
    cbn. unfold bindM, load. rewrite Hlm.
    destruct (validateMachineMounts volumeName (lm_machine lm)) as [e|] eqn:Ev.
    + exists (Some e). split; [reflexivity|]. split.
      * split; [discriminate|]. intros HF. inversion HF as [|? ? Hok]; subst.
        apply Hok, validateMachineMounts_None in Hlm. congruence.
      * intros e' [= <-]. exists h, lm. split; [constructor|]. auto.
    + destruct (IH Hrest) as (r & Er & Hr & He). exists r. split; [exact Er|]. split.
      * rewrite Hr. split.
        -- intros HF. constructor; [|exact HF]. intros lm' Hlm'. rewrite Hlm in Hlm'.
           injection Hlm' as <-. apply validateMachineMounts_None. exact Ev.
        -- intros HF. inversion HF; assumption.
      * intros e Hre. destruct (He e Hre) as (h' & lm' & Hin & Hl & Hv).
        exists h', lm'. split; [constructor; exact Hin|]. auto.
Qed.

(** [validateVolumeConfig] changes nothing and succeeds exactly when each
    machine of the set has no mount (no volume configured in fly.toml) or
    exactly one mount named after the configured volume; an error it
    returns is the one of a machine of the set. *)
Theorem validateVolumeConfig_result (volumeName : string) (c : Ctx) (s : St) :
  Forall (fun h => h < length (st_heap s))%nat (st_machineSet s) ->
  exists r, validateVolumeConfig volumeName c s = (Done r, s) /\
    (r = None <-> Forall (fun h => forall lm, st_heap s !! h = Some lm ->
                                     mounts_ok volumeName (lm_machine lm)) (st_machineSet s)) /\
    (forall e, r = Some e -> exists h lm, h ∈ st_machineSet s /\ st_heap s !! h = Some lm /\
                 validateMachineMounts volumeName (lm_machine lm) = Some e).
Proof.
  intros Hlt. unfold validateVolumeConfig, bindM, getMachineSet.
  destruct (st_machineSet s) as [|h rest] eqn:Ems; cbn [isEmpty].
  - exists None. split; [reflexivity|]. split; [split; constructor|]. discriminate.
  - rewrite <- Ems in Hlt |- *. apply validateVolumeConfig_loop_eval. exact Hlt.
Qed.

Lemma NewMachineSet_eval (machines : list Machine) (c : Ctx) (s : St) :
  NewMachineSet machines c s =
    (Done (seq (length (st_heap s)) (length machines)),
     set_heap s (st_heap s ++ map NewLeasableMachine machines)).
Proof.
  unfold NewMachineSet. revert s. induction machines as [|m rest IH]; intros s.
  - cbn. rewrite app_nil_r. destruct s; reflexivity.
  - cbn [mapM]. unfold bindM at 1. cbn [alloc]. unfold bindM.
    rewrite IH. cbn. rewrite length_app, <- app_assoc. cbn.
    replace (length (st_heap s) + 1)%nat with (S (length (st_heap s))) by lia. reflexivity.
Qed.

(** [setMachinesForDeployment] adopts the platform machines when there are
    some, and otherwise the active machines when there are none, when the
    migration is auto-confirmed, or when the user confirms it: each gets a
    fresh leasable machine without lease, in order, and the release command
    machine, if any, gets one after them. *)
Theorem setMachinesForDeployment_adopts (la : ListAnswers) (autoConfirm : bool) (c : Ctx) (s : St)
  (machines : list Machine) (releaseCmdMachine : option Machine) (chosen : list Machine) :
  la_listFlyAppsMachines la = ROk (machines, releaseCmdMachine) ->
  (machines <> [] /\ chosen = machines \/
   machines = [] /\ la_listActive la = ROk chosen /\
   (chosen = [] \/ autoConfirm = true \/ la_confirm la = PromptConfirmed true)) ->
  let n := length (st_heap s) in
  let rel := match releaseCmdMachine with Some m => [m] | None => [] end in
  setMachinesForDeployment la autoConfirm c s =
    (Done None,
     {| st_heap := st_heap s ++ map NewLeasableMachine (chosen ++ rel);
        st_machineSet := seq n (length chosen);
        st_releaseCommandMachine := seq (n + length chosen) (length rel);
        st_step := st_step s; st_trace := st_trace s |}).
Proof.
  intros Hl Hc n rel. subst n rel.
  unfold setMachinesForDeployment. rewrite Hl.
  set (assign := fun ms : list Machine =>
         ms' <- NewMachineSet ms ;; _ <- setMachineSet ms' ;;
         rel <- NewMachineSet match releaseCmdMachine with Some m => [m] | None => [] end ;;
         _ <- setReleaseCommandMachine rel ;; retM (@None Err)).
  assert (Ha : assign chosen c s =
    (Done None,
     {| st_heap := st_heap s ++ map NewLeasableMachine (chosen ++ match releaseCmdMachine with Some m => [m] | None => [] end);
        st_machineSet := seq (length (st_heap s)) (length chosen);
        st_releaseCommandMachine := seq (length (st_heap s) + length chosen)
             (length match releaseCmdMachine with Some m => [m] | None => [] end);
        st_step := st_step s; st_trace := st_trace s |})).
  { subst assign. unfold bindM. rewrite NewMachineSet_eval. cbn [setMachineSet].
    rewrite NewMachineSet_eval. cbn. rewrite length_app, length_map, map_app, app_assoc. reflexivity. }
  destruct Hc as [[Hne ->] | (-> & Ha' & Hc)].
  - destruct machines as [|m ms]; [congruence|]. exact Ha.
  - rewrite Ha'. destruct chosen as [|m ms]; [exact Ha|].
    destruct Hc as [Hc|[->|Hc]]; [discriminate| exact Ha |].
    destruct autoConfirm; [exact Ha|]. rewrite Hc. exact Ha.
Qed.

Ltac nms_run :=
  unfold bindM; repeat (rewrite NewMachineSet_eval; cbn -[NewMachineSet]); cbn.

(** When [setMachinesForDeployment] returns an error, the machine sets and
    the heap are unchanged. *)
Theorem setMachinesForDeployment_error_keeps_state (la : ListAnswers) (autoConfirm : bool)
  (c : Ctx) (s s' : St) (e : Err) :
  setMachinesForDeployment la autoConfirm c s = (Done (Some e), s') -> s' = s.
Proof.
  unfold setMachinesForDeployment.
  destruct (la_listFlyAppsMachines la) as [[machines rcm]|err]; [|intros [= _ <-]; reflexivity].
  destruct machines as [|m ms]; cbn -[NewMachineSet].
  2:{ nms_run. intros [=]. }
  destruct (la_listActive la) as [[|m ms]|err]; [| |intros [= _ <-]; reflexivity].
  - nms_run. intros [=].
  - destruct autoConfirm.
    + nms_run. intros [=].
    + destruct (la_confirm la) as [[|]| |err].
      * nms_run. intros [=].
      * nms_run. intros [=].
      * intros [= _ <-]. reflexivity.
      * intros [= _ <-]. reflexivity.
Qed.

(** When the user declines the migration of the active machines, the app's
    machine set becomes empty, nothing is allocated and the release command
    set is left as it was. *)
Theorem setMachinesForDeployment_declined (la : ListAnswers) (c : Ctx) (s : St)
  (releaseCmdMachine : option Machine) (m : Machine) (ms : list Machine) :
  la_listFlyAppsMachines la = ROk ([], releaseCmdMachine) ->
  la_listActive la = ROk (m :: ms) ->
  la_confirm la = PromptConfirmed false ->
  setMachinesForDeployment la false c s = (Done None, set_machineSet s []).
Proof.
  intros Hl Ha Hc. unfold setMachinesForDeployment. rewrite Hl, Ha, Hc.
  unfold bindM. rewrite NewMachineSet_eval. cbn. rewrite app_nil_r. destruct s; reflexivity.
Qed.


Lemma pretty_N_go_no_dash (x : N) (s : string) : no_dash s -> no_dash (pretty_N_go x s).
Proof.
  revert s. induction (N.lt_wf_0 x) as [x _ IH]; intros s Hs.
  assert (x = 0 \/ 0 < x)%N as [->|Hx] by lia.
  - rewrite pretty_N_go_0. exact Hs.
  - rewrite pretty_N_go_step by exact Hx. apply IH; [apply N.div_lt; lia|].
    intros [|k]; [|apply Hs]. cbn. unfold pretty_N_char.
    repeat case_match; discriminate.
Qed.

Lemma pretty_nat_no_dash (n : nat) : no_dash (pretty n).
Proof.
  unfold pretty, pretty_nat, pretty, pretty_N. case_decide.
  - intros [|[|k]]; discriminate.
  - apply pretty_N_go_no_dash. intros k. destruct k; discriminate.
Qed.

Lemma app_dash_inj (a b x y : string) :
  no_dash a -> no_dash b -> (a +:+ String "-" x = b +:+ String "-" y)%string -> a = b.
Proof.
  revert b. induction a as [|ca a IH]; intros [|cb b] Ha Hb E; cbn in E.
  - reflexivity.
  - injection E as E _. exfalso. apply (Hb 0%nat). cbn. congruence.
  - injection E as E _. exfalso. apply (Ha 0%nat). cbn. congruence.
  - injection E as <- E. f_equal. apply IH; [intros k; apply (Ha (S k))|intros k; apply (Hb (S k))|exact E].
Qed.

Lemma svc_key_inj (k : string) (n m : nat) : svc_key k n -> svc_key k m -> n = m.
Proof.
  intros [x ->] [y E]. cbn in E. injection E as E.
  apply (inj pretty). eapply app_dash_inj; [apply pretty_nat_no_dash..|exact E].
Qed.

Lemma chk_not_svc_key (name rest : string) (m : nat) : ~ svc_key ("chk-" +:+ name +:+ rest) m.
Proof. intros [x E]. discriminate E. Qed.

Lemma addServiceChecks_spec {C} (str : C -> Z -> string) (conv : C -> Z -> res MachineCheck)
  (port : Z) (checkCount : nat) (checks : list C) :
  forall i acc acc',
  addServiceChecks str conv port checkCount i checks acc = ROk acc' ->
  fresh_svc_keys acc (checkCount + i) ->
  size acc' = (size acc + length checks)%nat /\ acc ⊆ acc' /\
  fresh_svc_keys acc' (checkCount + i + length checks).
Proof.
  induction checks as [|c rest IH]; intros i acc acc' E Hf; cbn in E.
  - injection E as <-. cbn [length]. rewrite !Nat.add_0_r. split; [lia|]. split; [reflexivity|exact Hf].
  - destruct (conv c port) as [mc|err]; [|discriminate].
    set (key := ("svcchk" +:+ pretty (checkCount + i)%nat +:+ "-" +:+ str c port)%string) in E.
    assert (Hkey : svc_key key (checkCount + i)) by (exists (str c port); reflexivity).
    assert (Hnone : acc !! key = None).
    { destruct (acc !! key) eqn:Ek; [|reflexivity]. exfalso.
      pose proof (Hf key _ ltac:(congruence) Hkey). lia. }
    destruct (IH (S i) _ _ E) as (Hs & Hsub & Hf').
    { intros k m Hk Hm. destruct (decide (k = key)) as [->|Hne].
      - rewrite (svc_key_inj _ _ _ Hm Hkey). lia.
      - rewrite lookup_insert_ne in Hk by congruence. pose proof (Hf k m Hk Hm). lia. }
    rewrite map_size_insert_None in Hs by exact Hnone. cbn [length].
    split; [lia|]. split.
    + etrans; [apply insert_subseteq; exact Hnone|exact Hsub].
    + replace (checkCount + i + S (length rest))%nat with (checkCount + S i + length rest)%nat by lia.
      exact Hf'.
Qed.

Section TranslateProofs.
Context {HTTPService TopLevelCheck Service ServiceHTTPCheck ServiceTCPCheck : Type}.
Context (httpService_ToMachineService : HTTPService -> MachineService).
Context (check_String : TopLevelCheck -> string).
Context (check_ToMachineCheck : TopLevelCheck -> res MachineCheck).
Context (service_ToMachineService : Service -> MachineService).
Context (service_InternalPort : Service -> Z).
Context (service_HttpChecks : Service -> list ServiceHTTPCheck).
Context (service_TcpChecks : Service -> list ServiceTCPCheck).
Context (httpCheck_String : ServiceHTTPCheck -> Z -> string).
Context (httpCheck_ToMachineCheck : ServiceHTTPCheck -> Z -> res MachineCheck).
Context (tcpCheck_String : ServiceTCPCheck -> Z -> string).
Context (tcpCheck_ToMachineCheck : ServiceTCPCheck -> Z -> res MachineCheck).

Lemma translateServices_spec (services : list Service) :
  forall checkCount svcs acc svcs' acc',
  translateServices service_ToMachineService service_InternalPort service_HttpChecks
    service_TcpChecks httpCheck_String httpCheck_ToMachineCheck tcpCheck_String
    tcpCheck_ToMachineCheck services checkCount svcs acc = ROk (svcs', acc') ->
  fresh_svc_keys acc checkCount ->
  svcs' = svcs ++ map service_ToMachineService services /\ acc ⊆ acc' /\
  size acc' = (size acc + sum_list_with (fun service =>
                 length (service_HttpChecks service) + length (service_TcpChecks service))
                 services)%nat.
Proof.
  induction services as [|service rest IH]; intros checkCount svcs acc svcs' acc' E Hf; cbn in E.
  - injection E as <- <-. rewrite app_nil_r. cbn. split; [reflexivity|]. split; [reflexivity|lia].
  - destruct (addServiceChecks httpCheck_String httpCheck_ToMachineCheck (service_InternalPort service)
                checkCount 0 (service_HttpChecks service) acc) as [acc1|err] eqn:E1; [|discriminate].
    destruct (addServiceChecks tcpCheck_String tcpCheck_ToMachineCheck (service_InternalPort service)
                (checkCount + length (service_HttpChecks service)) 0 (service_TcpChecks service) acc1)
      as [acc2|err] eqn:E2; [|discriminate].
    destruct (addServiceChecks_spec _ _ _ _ _ _ _ _ E1) as (Hs1 & Hsub1 & Hf1).
    { rewrite Nat.add_0_r. exact Hf. }
    destruct (addServiceChecks_spec _ _ _ _ _ _ _ _ E2) as (Hs2 & Hsub2 & Hf2).
    { rewrite Nat.add_0_r. rewrite Nat.add_0_r in Hf1. exact Hf1. }
    destruct (IH _ _ _ _ _ E) as (Hsv & Hsub3 & Hs3).
    { rewrite Nat.add_0_r in Hf2. exact Hf2. }
    split; [rewrite Hsv, <- app_assoc; reflexivity|]. split.
    + etrans; [exact Hsub1|]. etrans; [exact Hsub2|exact Hsub3].
    + rewrite Hs3, Hs2, Hs1. cbn. lia.
Qed.

Lemma addTopLevelChecks_keys (checks : list (string * TopLevelCheck)) :
  forall acc acc',
  addTopLevelChecks check_String check_ToMachineCheck checks acc = ROk acc' ->
  forall k, acc' !! k <> None ->
    acc !! k <> None \/
    exists checkName check, (checkName, check) ∈ checks /\
      k = ("chk-" +:+ checkName +:+ "-" +:+ check_String check)%string.
Proof.
  induction checks as [|[checkName check] rest IH]; intros acc acc' E k Hk; cbn in E.
  - injection E as <-. left. exact Hk.
  - destruct (check_ToMachineCheck check) as [mc|err]; [|discriminate].
    destruct (IH _ _ E k Hk) as [Hin|(n & v & Hin & ->)].
    + destruct (decide (k = ("chk-" +:+ checkName +:+ "-" +:+ check_String check)%string)) as [->|Hne].
      * right. exists checkName, check. split; [left|reflexivity].
      * left. rewrite lookup_insert_ne in Hin by congruence. exact Hin.
    + right. exists n, v. split; [right; exact Hin|reflexivity].
Qed.

(** On success, [translateServicesAndChecksForMachines] lists the HTTP
    service first and then the services in order; the top-level checks are
    keyed "chk-<name>-<check>", and every service check is added under a
    fresh key, so the map has one entry per service check on top of the
    top-level ones. *)
Theorem translateServicesAndChecksForMachines_result (httpService : option HTTPService)
  (checks : gmap string TopLevelCheck) (services : list Service)
  (svcs : list MachineService) (chks : gmap string MachineCheck) :
  translateServicesAndChecksForMachines httpService_ToMachineService check_String
    check_ToMachineCheck service_ToMachineService service_InternalPort service_HttpChecks
    service_TcpChecks httpCheck_String httpCheck_ToMachineCheck tcpCheck_String
    tcpCheck_ToMachineCheck httpService checks services = ROk (svcs, chks) ->
  svcs = match httpService with Some hs => [httpService_ToMachineService hs] | None => [] end
         ++ map service_ToMachineService services /\
  exists top, addTopLevelChecks check_String check_ToMachineCheck (map_to_list checks) ∅ = ROk top /\
    (forall k, top !! k <> None -> exists checkName check, checks !! checkName = Some check /\
       k = ("chk-" +:+ checkName +:+ "-" +:+ check_String check)%string) /\
    top ⊆ chks /\
    size chks = (size top + sum_list_with (fun service =>
                   length (service_HttpChecks service) + length (service_TcpChecks service))
                   services)%nat.
Proof.
  unfold translateServicesAndChecksForMachines.
  destruct (addTopLevelChecks check_String check_ToMachineCheck (map_to_list checks) ∅)
    as [top|err] eqn:Et; [|discriminate].
  intros E.
  assert (Hkeys : forall k, top !! k <> None -> exists checkName check, checks !! checkName = Some check /\
       k = ("chk-" +:+ checkName +:+ "-" +:+ check_String check)%string).
  { intros k Hk. destruct (addTopLevelChecks_keys _ _ _ Et k Hk) as [H|(n & v & Hin & ->)].
    - rewrite lookup_empty in H. congruence.
    - exists n, v. split; [apply elem_of_map_to_list; exact Hin|reflexivity]. }
  destruct (translateServices_spec _ _ _ _ _ _ E) as (Hsv & Hsub & Hs).
  { intros k m Hk Hm. destruct (Hkeys k Hk) as (n & v & _ & ->).
    exfalso. exact (chk_not_svc_key _ _ _ Hm). }
  split; [exact Hsv|]. exists top. auto.
Qed.
End TranslateProofs.

(** * Instances on the example deployments *)

Lemma Update_requires_lease_witness :
  st_heap ex_update_state !! 1%nat = Some (ex_leased "m2") /\
  exists r s', lm_Update 1 ex_update_input (ex_update_ctx "rolling") ex_update_state = (Done r, s') /\
    st_trace s' = st_trace ex_update_state ++ [EvUpdate 1 ex_update_input "nonce-m2"].
Proof.
  split; [reflexivity|].
  destruct (Update_requires_lease (ex_update_ctx "rolling") ex_update_state 1 (ex_leased "m2")
              ex_update_input eq_refl) as [_ H].
  destruct (H eq_refl) as (r & s' & E & Ht & _). exists r, s'. split; [exact E|exact Ht].
Defined.

Lemma ReleaseLease_expiry_tolerance_witness :
  st_heap ex_update_state !! 0%nat = Some (ex_leased "m1") /\
  exists s', lm_ReleaseLease 0 (ex_update_ctx "rolling") ex_update_state = (Done None, s') /\
    st_heap s' !! 0%nat = Some (set_lease (ex_leased "m1") "" zero_time).
Proof.
  split; [reflexivity|].
  destruct (ReleaseLease_expiry_tolerance (ex_update_ctx "rolling") ex_update_state 0 (ex_leased "m1")
              eq_refl) as [_ H].
  destruct (H ltac:(discriminate) ltac:(vm_compute; reflexivity) ltac:(vm_compute; reflexivity))
    as (s' & E & Hh & _).
  exists s'. split; [exact E|exact Hh].
Defined.

Lemma ReleaseLease_always_clears_witness :
  st_heap ex_update_state !! 2%nat = Some (ex_leased "m3") /\
  exists r s', lm_ReleaseLease 2 (ex_update_ctx "rolling") ex_update_state = (Done r, s') /\
    fst (lm_HasLease 2 (ex_update_ctx "rolling") s') = Done false.
Proof.
  split; [reflexivity|].
  destruct (ReleaseLease_always_clears (ex_update_ctx "rolling") ex_update_state 2 (ex_leased "m3")
              eq_refl) as (r & s' & E & _ & _ & _ & H).
  exists r, s'. split; [exact E|apply H].
Defined.

Lemma AcquireLeases_all_or_nothing_witness :
  exists s', ms_AcquireLeases [0; 1]%nat (1800 * Second) ex_lease_ctx ex_lease_state =
    (Done (Some (EMsg "error acquiring leases on all machines")), s') /\
    Forall (cleared s') [0; 1]%nat.
Proof.
  destruct (AcquireLeases_all_or_nothing ex_lease_ctx ex_lease_state [0; 1]%nat (1800 * Second)
              [None; Some (EApi "lease conflict")]
              (snd (mapM (fun h => lm_AcquireLease h (1800 * Second)) [0; 1]%nat
                      ex_lease_ctx ex_lease_state)))
    as (s2 & r & s3 & s' & _ & _ & E & _ & Hall).
  - vm_compute. repeat constructor.
  - vm_compute. reflexivity.
  - apply Exists_cons. right. apply Exists_cons. left. discriminate.
  - exists s'. split; [exact E|]. eapply Forall_impl; [exact Hall|]. intros h [Hc _]. exact Hc.
Defined.

Lemma updateLoop_update_error_witness :
  updateLoop [1; 2]%nat (ex_update_ctx "rolling") ex_update_state =
    (Done (Some (EApi "update failed")),
     snd (lm_Update 1 ex_update_input (ex_update_ctx "rolling") ex_update_state)) /\
  updateLoop [1; 2]%nat (ex_update_ctx "immediate") ex_update_state =
    updateLoop [2%nat] (ex_update_ctx "immediate")
      (add_event (snd (lm_Update 1 ex_update_input (ex_update_ctx "immediate") ex_update_state))
         (EvWarn "Continuing after error")).
Proof.
  split.
  - apply (updateLoop_update_error (ex_update_ctx "rolling") ex_update_state 1 [2%nat]
             (ex_leased "m2") ex_update_input (EApi "update failed")).
    + reflexivity.
    + vm_compute. reflexivity.
    + vm_compute. reflexivity.
    + discriminate.
  - apply (updateLoop_update_error (ex_update_ctx "immediate") ex_update_state 1 [2%nat]
             (ex_leased "m2") ex_update_input (EApi "update failed")).
    + reflexivity.
    + vm_compute. reflexivity.
    + vm_compute. reflexivity.
    + reflexivity.
Defined.

Lemma resolve_restartOnly_keeps_config_witness :
  md_restartOnly (ex_md "rolling" "" true) = true /\
  li_Config ex_restart_input =
    set_Metadata (m_Config (ex_machine "m1"))
      (copyUserMetadata (defaultMachineMetadata (ex_md "rolling" "" true) MachineProcessGroupApp)
                        (defaultMachineMetadata (ex_md "rolling" "" true) MachineProcessGroupApp)).
Proof.
  split; [reflexivity|].
  apply (resolve_restartOnly_keeps_config (ex_md "rolling" "" true) MachineProcessGroupApp
           (ex_machine "m1") ex_restart_input eq_refl).
  vm_compute. reflexivity.
Defined.

Lemma WaitForHealthchecksToPass_polls_witness :
  st_heap ex_single_state !! 0%nat = Some (NewLeasableMachine (ex_machine "m1")) /\
  lm_WaitForHealthchecksToPass 0 (120 * Second) ex_flaky_ctx ex_single_state =
    healthchecks_loop 10 0 (Z.quot (shortestInterval {["http" := ex_check]}) 2)
      (2 * shortestInterval {["http" := ex_check]}) ex_flaky_ctx ex_single_state.
Proof.
  split; [reflexivity|].
  destruct (WaitForHealthchecksToPass_polls ex_flaky_ctx ex_single_state 0
              (NewLeasableMachine (ex_machine "m1")) (120 * Second) eq_refl) as (_ & H & _).
  destruct (H {["http" := ex_check]} eq_refl) as (_ & _ & E). exact E.
Defined.

Lemma release_failure_aborts_witness :
  DeployMachinesApp ex_release_ctx ex_release_state =
    (Done (Some (EWrap "release command failed - aborting deployment." (EReleaseExit "rc" 7))),
     snd (runReleaseCommand ex_release_ctx ex_release_state)).
Proof.
  destruct (release_failure_aborts ex_release_ctx ex_release_state
              (snd (runReleaseCommand ex_release_ctx ex_release_state)) "rc" 7)
    as (_ & E & _).
  - constructor; [cbn; lia|constructor].
  - constructor; [|constructor]. cbn. intros Hin. apply list_elem_of_In in Hin. cbn in Hin. lia.
  - vm_compute. reflexivity.
  - exact E.
Defined.

Lemma release_command_machine_never_created_witness :
  runReleaseCommand (ex_ctx (ex_md "rolling" "migrate" false) (ex_env no_id no_id false) 0)
    ex_single_state = (Done None, ex_single_state) /\
  createReleaseCommandMachine (ex_ctx (ex_md "rolling" "migrate" false) (ex_env no_id no_id false) 0)
    ex_single_state = (Panic, ex_single_state).
Proof.
  apply release_command_machine_never_created.
  - discriminate.
  - reflexivity.
  - reflexivity.
Defined.

Lemma empty_fleet_create_panics_witness :
  DeployMachinesApp (ex_ctx (ex_md "rolling" "" false) (ex_env no_id no_id false) 0)
    (ex_state [] [] []) = (Panic, ex_state [] [] []).
Proof.
  destruct (empty_fleet_create_panics (ex_ctx (ex_md "rolling" "" false) (ex_env no_id no_id false) 0)
              (ex_state [] [] []) (ex_state [] [] [])) as [_ H].
  apply H; reflexivity.
Defined.

(** C8 does not retry transient errors: the first [Get] of [m1] fails with a
    503 while the next one would return the machine with all checks passing,
    yet the wait returns the error after that single [Get]. *)
Lemma WaitForHealthchecksToPass_no_retry :
  e_get (c_env ex_flaky_ctx) 1 "m1" = ROk (ex_machine "m1") /\
  AllPassing (c_api ex_flaky_ctx) (ex_machine "m1") = true /\
  lm_WaitForHealthchecksToPass 0 (120 * Second) ex_flaky_ctx ex_single_state =
    (Done (Some (EWrap "error getting machine m1 from api" (EApi "503 service unavailable"))),
     add_event (incr_step ex_single_state) (EvGet 0 "m1")).
Proof. split; [reflexivity|]. split; [reflexivity|]. vm_compute. reflexivity. Qed.

Lemma AcquireLease_held_noop_witness :
  st_heap ex_update_state !! 0%nat = Some (ex_leased "m1") /\
  exists s', lm_AcquireLease 0 (1800 * Second) (ex_update_ctx "rolling") ex_update_state = (Done None, s') /\
    st_trace s' = [].
Proof.
  split; [reflexivity|].
  destruct (AcquireLease_held_noop (ex_update_ctx "rolling") ex_update_state 0 (ex_leased "m1")
              (1800 * Second) eq_refl ltac:(vm_compute; reflexivity)) as (s' & E & Ht & _).
  exists s'. split; [exact E|exact Ht].
Defined.

Lemma AcquireLease_stores_granted_lease_witness :
  exists r s', lm_AcquireLease 0 (1800 * Second) ex_lease_ctx ex_lease_state = (Done r, s') /\
    r = None /\ st_heap s' !! 0%nat = Some (ex_leased "m1").
Proof.
  destruct (AcquireLease_stores_granted_lease ex_lease_ctx ex_lease_state 0
              (NewLeasableMachine (ex_machine "m1")) (1800 * Second) eq_refl
              ltac:(vm_compute; reflexivity)) as (r & s' & E & _ & H).
  cbn in H. destruct H as [Hr Hh].
  exists r, s'. split; [exact E|]. split; [exact Hr|]. rewrite Hh. reflexivity.
Defined.


Lemma ReleaseLeases_result_witness :
  exists r s', ms_ReleaseLeases [0; 1]%nat (ex_update_ctx "rolling") ex_update_state = (Done r, s') /\
    r = None.
Proof.
  destruct (ReleaseLeases_result (ex_update_ctx "rolling") ex_update_state [0; 1]%nat [None; None]
              (snd (mapM lm_ReleaseLease [0; 1]%nat (ex_update_ctx "rolling")
                      (incr_step ex_update_state))) ltac:(vm_compute; reflexivity))
    as (r & s' & E & _ & Hr).
  exists r, s'. split; [exact E|]. apply Hr. repeat constructor.
Defined.

Lemma DeployMachinesApp_releases_leases_witness :
  exists r s', DeployMachinesApp (ex_update_ctx "rolling") ex_lease_state = (Done r, s') /\
    Forall (cleared s') [0; 1]%nat.
Proof.
  destruct (DeployMachinesApp (ex_update_ctx "rolling") ex_lease_state) as [[r| |] s'] eqn:E.
  - exists r, s'. split; [reflexivity|].
    pose proof (DeployMachinesApp_releases_leases (ex_update_ctx "rolling") ex_lease_state s' r
                  ltac:(repeat constructor; cbn; lia) ltac:(constructor)
                  ltac:(constructor; [|constructor; [|constructor]];
                          eexists; (split; [reflexivity|split; reflexivity]))
                  E) as H.
    eapply Forall_impl; [exact H|]. intros h [Hc _]. exact Hc.
  - vm_compute in E. discriminate.
  - vm_compute in E. discriminate.
Defined.

Lemma resolve_metadata_sources_witness :
  md_restartOnly (ex_md "rolling" "" false) = false /\
  mc_Metadata (li_Config ex_update_input) !! MachineConfigMetadataKeyProcessGroup =
    defaultMachineMetadata (ex_md "rolling" "" false) MachineProcessGroupApp
      !! MachineConfigMetadataKeyProcessGroup.
Proof.
  split; [reflexivity|].
  exact (resolve_metadata_sources (ex_md "rolling" "" false) MachineProcessGroupApp (ex_machine "m2")
           ex_update_input eq_refl ltac:(vm_compute; reflexivity) MachineConfigMetadataKeyProcessGroup).
Defined.

Lemma resolve_restartOnly_drops_user_metadata_witness :
  mc_Metadata (li_Config ex_restart_input) =
    defaultMachineMetadata (ex_md "rolling" "" true) MachineProcessGroupApp.
Proof.
  exact (proj1 (resolve_restartOnly_drops_user_metadata (ex_md "rolling" "" true) MachineProcessGroupApp
                  (ex_machine "m1") ex_restart_input eq_refl ltac:(vm_compute; reflexivity))).
Defined.

Lemma resolve_primary_region_witness :
  map_get (mc_Env (li_Config ex_vol_input)) "PRIMARY_REGION" = "ams".
Proof.
  exact (proj2 (resolve_primary_region (ex_md "rolling" "" false) MachineProcessGroupApp
                  ex_vol_machine ex_vol_input eq_refl ltac:(vm_compute; reflexivity))).
Defined.

Lemma resolve_mounts_and_guest_witness :
  mc_Mounts (li_Config ex_vol_input) =
    [{| mnt_Volume := "vol_1"; mnt_Path := ""; mnt_Name := "data" |}].
Proof.
  exact (proj2 (resolve_mounts_and_guest (ex_md "rolling" "" false) MachineProcessGroupApp
                  ex_vol_machine ex_vol_input eq_refl ltac:(vm_compute; reflexivity))).
Defined.

Lemma validateVolumeConfig_result_witness :
  exists r, validateVolumeConfig "data" (ex_update_ctx "rolling") ex_vol_state = (Done r, ex_vol_state) /\
    r <> None.
Proof.
  destruct (validateVolumeConfig_result "data" (ex_update_ctx "rolling") ex_vol_state
              ltac:(repeat constructor; cbn; lia)) as (r & E & Hr & _).
  exists r. split; [exact E|]. intros ->. apply proj1 in Hr. specialize (Hr eq_refl).
  inversion Hr as [|? ? _ Hr1]. inversion Hr1 as [|? ? Hm _].
  destruct (Hm _ eq_refl) as (mt & Hmt & _). discriminate.
Defined.

Lemma setMachinesForDeployment_adopts_witness :
  setMachinesForDeployment (ex_migration (PromptConfirmed true)) false (ex_update_ctx "rolling")
    (ex_state [] [] []) =
  (Done None,
   {| st_heap := map NewLeasableMachine [ex_machine "m1"; ex_machine "m2"; ex_machine "rc"];
      st_machineSet := [0; 1]%nat; st_releaseCommandMachine := [2%nat];
      st_step := 0; st_trace := [] |}).
Proof.
  exact (setMachinesForDeployment_adopts (ex_migration (PromptConfirmed true)) false
           (ex_update_ctx "rolling") (ex_state [] [] []) [] (Some (ex_machine "rc"))
           [ex_machine "m1"; ex_machine "m2"] eq_refl
           (or_intror (conj eq_refl (conj eq_refl (or_intror (or_intror eq_refl)))))).
Defined.

Lemma setMachinesForDeployment_error_keeps_state_witness :
  snd (setMachinesForDeployment (ex_migration PromptNonInteractive) false (ex_update_ctx "rolling")
         ex_update_state) = ex_update_state.
Proof.
  apply (setMachinesForDeployment_error_keeps_state (ex_migration PromptNonInteractive) false
           (ex_update_ctx "rolling") ex_update_state _
           (EMsg "not running interactively, use --auto-confirm flag to confirm")).
  vm_compute. reflexivity.
Defined.

Lemma setMachinesForDeployment_declined_witness :
  setMachinesForDeployment (ex_migration (PromptConfirmed false)) false (ex_update_ctx "rolling")
    ex_update_state = (Done None, set_machineSet ex_update_state []).
Proof.
  exact (setMachinesForDeployment_declined (ex_migration (PromptConfirmed false))
           (ex_update_ctx "rolling") ex_update_state (Some (ex_machine "rc")) (ex_machine "m1")
           [ex_machine "m2"] eq_refl eq_refl eq_refl).
Defined.


Lemma translateServicesAndChecksForMachines_result_witness :
  exists svcs chks,
    translateServicesAndChecksForMachines (fun hs : MachineService => hs) chk_Type (@ROk _)
      (fun sv : MachineService * list MachineCheck * list MachineCheck => fst (fst sv))
      (fun sv => svc_InternalPort (fst (fst sv))) (fun sv => snd (fst sv)) snd
      (fun c _ => chk_Type c) (fun c _ => ROk c) (fun c _ => chk_Type c) (fun c _ => ROk c)
      None {["hc" := ex_check]} [ex_service] = ROk (svcs, chks) /\
    size chks = 4%nat.
Proof.
  destruct (translateServicesAndChecksForMachines (fun hs : MachineService => hs) chk_Type (@ROk _)
      (fun sv : MachineService * list MachineCheck * list MachineCheck => fst (fst sv))
      (fun sv => svc_InternalPort (fst (fst sv))) (fun sv => snd (fst sv)) snd
      (fun c _ => chk_Type c) (fun c _ => ROk c) (fun c _ => chk_Type c) (fun c _ => ROk c)
      None {["hc" := ex_check]} [ex_service]) as [[svcs chks]|err] eqn:E.
  - exists svcs, chks. split; [reflexivity|].
    destruct (translateServicesAndChecksForMachines_result _ _ _ _ _ _ _ _ _ _ _ _ _ _ _ _ E)
      as (_ & top & Et & _ & _ & Hs).
    rewrite Hs. vm_compute in Et. injection Et as <-. vm_compute. reflexivity.
  - vm_compute in E. discriminate.
Defined.
